(** * stdlib-numerical-demo: the ULP accuracy comparison engine

    A shallow embedding of the numeric core of the repository:
    - [lib/compare.js]: [ulpDiff] and the sweep of [runComparison];
    - [web/app.js]: the helpers [isnan], [isinfinite], [abs], the second
      copy of [ulpDiff], and the row loop of [populateEdgeCases].

    A JavaScript Number is an IEEE 754 binary64 value.  It is modelled by
    [spec_float] of the Standard Library (one NaN, signed zeros, signed
    infinities, finite values [(-1)^s * m * 2^e]) with the operations
    [SFadd], [SFsub], [SFmul], [SFdiv], [SFsqrt] and [SFcompare] taken at
    precision 53 and maximal exponent 1024, rounding to nearest, ties to
    even. *)

From Stdlib Require Import ZArith List Bool Lia.
From Stdlib Require Import Floats.SpecFloat.
Import ListNotations.

Local Open Scope Z_scope.

(** ** JavaScript Numbers *)

Module JS.

Definition prec : Z := 53.
Definition emax : Z := 1024.

Definition number : Set := spec_float.

(** A well-formed double: the mantissa is canonical for its exponent. *)
Definition wf (x : number) : bool := valid_binary prec emax x.

Definition NaN : number := S754_nan.
Definition Infinity : number := S754_infinity false.
Definition pos_zero : number := S754_zero false.
Definition neg_zero : number := S754_zero true.

(** An integer literal or an integer-valued counter as a Number. *)
Definition of_Z (z : Z) : number := binary_normalize prec emax z 0 false.

Definition add (x y : number) : number := SFadd prec emax x y.
Definition sub (x y : number) : number := SFsub prec emax x y.
Definition mul (x y : number) : number := SFmul prec emax x y.
Definition div (x y : number) : number := SFdiv prec emax x y.
Definition neg (x : number) : number := SFopp x.

(** [x === y], [x !== y], [x < y], [x > y] and [x <= y] on Numbers. *)
Definition strict_eq (x y : number) : bool := SFeqb x y.
Definition strict_ne (x y : number) : bool := negb (SFeqb x y).
Definition lt (x y : number) : bool := SFltb x y.
Definition gt (x y : number) : bool := SFltb y x.
Definition le (x y : number) : bool := SFleb x y.

(** [Math.abs] clears the sign bit; [Math.sqrt] is the IEEE 754
    squareRoot operation. *)
Definition Math_abs (x : number) : number := SFabs x.
Definition Math_sqrt (x : number) : number := SFsqrt prec emax x.

(** Structural classification of a Number. *)
Definition is_nan (x : number) : bool :=
  match x with S754_nan => true | _ => false end.
Definition is_inf (x : number) : bool :=
  match x with S754_infinity _ => true | _ => false end.
Definition is_zero (x : number) : bool :=
  match x with S754_zero _ => true | _ => false end.
Definition is_finite (x : number) : bool :=
  match x with S754_zero _ | S754_finite _ _ _ => true | _ => false end.

(** The sign bit of a Number that is not NaN. *)
Definition sign_bit (x : number) : option bool :=
  match x with
  | S754_nan => None
  | S754_zero s | S754_infinity s | S754_finite s _ _ => Some s
  end.

(** Neither negative nor a negative zero: NaN, or sign bit clear. *)
Definition sign_clear (x : number) : bool :=
  match sign_bit x with Some true => false | _ => true end.

(** A decimal literal [d * 10^-p], with [d > 0] and [p >= 0]: the quotient
    of the two integers, rounded once to the nearest double. *)
Definition decimal (d p : Z) : number :=
  SFdiv prec emax (S754_finite false (Z.to_pos d) 0)
                  (S754_finite false (Z.to_pos (10 ^ p)) 0).

(** [Math.floor]: the largest integer not above [x]; an integer, a zero, an
    infinity and NaN are returned unchanged. *)
Definition Math_floor (x : number) : number :=
  match x with
  | S754_finite s m e =>
      if 0 <=? e then x
      else
        let q := Z.shiftr (Z.pos m) (- e) in
        if s then
          if Z.shiftl q (- e) =? Z.pos m then of_Z (- q)
          else of_Z (- (q + 1))
        else of_Z q
  | _ => x
  end.

End JS.

Abbreviation number := JS.number.

(** ** The packages of [@stdlib] that [lib/compare.js] requires

    These are dependencies, not files of the repository; each is modelled
    by what the package computes. *)

Module StdlibJS.

(** [@stdlib/math/base/assert/is-nan]: [x !== x]. *)
Definition isnan (x : number) : bool := JS.strict_ne x x.

(** [@stdlib/constants/float64/pinf] and [.../ninf]. *)
Definition PINF : number := JS.Infinity.
Definition NINF : number := JS.neg JS.Infinity.

(** [@stdlib/math/base/assert/is-infinite]:
    [x === PINF || x === NINF]. *)
Definition isinfinite (x : number) : bool :=
  JS.strict_eq x PINF || JS.strict_eq x NINF.

(** [@stdlib/math/base/special/abs]: the absolute value, [Math.abs]. *)
Definition abs (x : number) : number := JS.Math_abs x.

(** [@stdlib/constants/float64/eps]: [2.220446049250313e-16], the
    double [2^-52]. *)
Definition FLOAT64_EPS : number := S754_finite false 4503599627370496 (-104).

(** [@stdlib/math/base/special/floor]: [Math.floor]. *)
Definition floor (x : number) : number := JS.Math_floor x.

(** [@stdlib/math/base/special/max] and [.../min] of two numbers: NaN when
    one of them is NaN, and [+0] above [-0]. *)
Definition max (x y : number) : number :=
  if isnan x || isnan y then JS.NaN
  else if JS.strict_eq x PINF || JS.strict_eq y PINF then PINF
  else if JS.strict_eq x y && JS.strict_eq x (JS.of_Z 0) then
    match x with S754_zero false => x | _ => y end
  else if JS.gt x y then x else y.

Definition min (x y : number) : number :=
  if isnan x || isnan y then JS.NaN
  else if JS.strict_eq x NINF || JS.strict_eq y NINF then NINF
  else if JS.strict_eq x y && JS.strict_eq x (JS.of_Z 0) then
    match x with S754_zero true => x | _ => y end
  else if JS.lt x y then x else y.

End StdlibJS.

(** ** [lib/compare.js] *)

Module Compare.
Import StdlibJS.

(** [function ulpDiff(a, b)]. *)
Definition ulpDiff (a b : number) : number :=
  if JS.strict_eq a b then JS.pos_zero
  else if isnan a || isnan b then JS.NaN
  else if isinfinite a || isinfinite b then JS.Infinity
  else if JS.strict_eq a JS.pos_zero then
    JS.div (abs b) (JS.div FLOAT64_EPS (JS.of_Z 2))
  else
    JS.div (abs (JS.sub a b)) (JS.mul (abs a) FLOAT64_EPS).

(** The accumulators of [runComparison]. *)
Record sweep : Set := mkSweep {
  maxUlpDiff : number;
  totalDiff : number;
  worstCase : number;
  nAgree : Z;
  nTotal : Z
}.

Definition sweep_init : sweep :=
  {| maxUlpDiff := JS.pos_zero; totalDiff := JS.pos_zero;
     worstCase := JS.pos_zero; nAgree := 0; nTotal := 0 |}.

Definition count_total (st : sweep) : sweep :=
  {| maxUlpDiff := maxUlpDiff st; totalDiff := totalDiff st;
     worstCase := worstCase st; nAgree := nAgree st;
     nTotal := nTotal st + 1 |}.

Definition count_agree (st : sweep) : sweep :=
  {| maxUlpDiff := maxUlpDiff st; totalDiff := totalDiff st;
     worstCase := worstCase st; nAgree := nAgree st + 1;
     nTotal := nTotal st |}.

(** [totalDiff += diff], then the update of the maximum. *)
Definition accumulate (st : sweep) (x diff : number) : sweep :=
  let total := JS.add (totalDiff st) diff in
  if JS.gt diff (maxUlpDiff st) then
    {| maxUlpDiff := diff; totalDiff := total; worstCase := x;
       nAgree := nAgree st; nTotal := nTotal st |}
  else
    {| maxUlpDiff := maxUlpDiff st; totalDiff := total;
       worstCase := worstCase st; nAgree := nAgree st;
       nTotal := nTotal st |}.

(** The body of the [for] loop once both values are computed; each
    [continue] returns the state reached so far. *)
Definition sweep_sample (st : sweep) (x stdlibVal nativeVal : number)
    : sweep :=
  if isnan stdlibVal && isnan nativeVal then st
  else if isinfinite stdlibVal && isinfinite nativeVal
          && JS.strict_eq stdlibVal nativeVal then st
  else
    let st := count_total st in
    if JS.strict_eq stdlibVal nativeVal then count_agree st
    else
      let diff := ulpDiff stdlibVal nativeVal in
      if negb (isnan diff) && negb (isinfinite diff) then
        accumulate st x diff
      else st.

(** One iteration: [stdlibVal = stdlibFn(testPoints[i])],
    [nativeVal = nativeFn(testPoints[i])], then the body. *)
Definition sweep_step (stdlibFn nativeFn : number -> number)
    (st : sweep) (x : number) : sweep :=
  sweep_sample st x (stdlibFn x) (nativeFn x).

Definition sweep_loop (stdlibFn nativeFn : number -> number)
    (testPoints : list number) : sweep :=
  fold_left (sweep_step stdlibFn nativeFn) testPoints sweep_init.

(** What the block of [console.log] calls prints after the loop.  The
    numbers are kept as they are before [toFixed], which prints a NaN as
    [NaN] and an infinity as [Infinity]. *)
Inductive ulp_lines : Set :=
| PerfectAgreement
| UlpStatistics (maxUlp avgUlp worst stdlibAtWorst nativeAtWorst : number).

Record report : Set := mkReport {
  pointsTested : Z;
  exactAgreements : Z;
  totalComparable : Z;
  agreementPercent : number;
  ulpLines : ulp_lines
}.

Definition report_of (stdlibFn nativeFn : number -> number)
    (npoints : Z) (st : sweep) : report :=
  {| pointsTested := npoints;
     exactAgreements := nAgree st;
     totalComparable := nTotal st;
     agreementPercent :=
       JS.div (JS.mul (JS.of_Z 100) (JS.of_Z (nAgree st)))
              (JS.of_Z (nTotal st));
     ulpLines :=
       if JS.gt (maxUlpDiff st) (JS.of_Z 0) then
         UlpStatistics (maxUlpDiff st)
           (JS.div (totalDiff st) (JS.of_Z (nTotal st - nAgree st)))
           (worstCase st)
           (stdlibFn (worstCase st)) (nativeFn (worstCase st))
       else PerfectAgreement |}.

(** [function runComparison(name, stdlibFn, nativeFn, testPoints)]; the
    [name] is only printed. *)
Definition runComparison (stdlibFn nativeFn : number -> number)
    (testPoints : list number) : report :=
  report_of stdlibFn nativeFn (Z.of_nat (length testPoints))
    (sweep_loop stdlibFn nativeFn testPoints).

End Compare.

(** ** [web/app.js] *)

Module WebApp.

Definition FLOAT64_EPS : number := S754_finite false 4503599627370496 (-104).
Definition PINF : number := JS.Infinity.
Definition NINF : number := JS.neg JS.Infinity.

(** [function isnan(x) { return x !== x; }] *)
Definition isnan (x : number) : bool := JS.strict_ne x x.

(** [function isinfinite(x) { return (x === PINF || x === NINF); }] *)
Definition isinfinite (x : number) : bool :=
  JS.strict_eq x PINF || JS.strict_eq x NINF.

(** [function abs(x) { return (x < 0) ? -x : x; }] *)
Definition abs (x : number) : number :=
  if JS.lt x (JS.of_Z 0) then JS.neg x else x.

(** [function ulpDiff(a, b)]. *)
Definition ulpDiff (a b : number) : number :=
  if JS.strict_eq a b then JS.pos_zero
  else if isnan a || isnan b then JS.NaN
  else if isinfinite a || isinfinite b then PINF
  else if JS.strict_eq a JS.pos_zero then
    JS.div (abs b) (JS.div FLOAT64_EPS (JS.of_Z 2))
  else
    JS.div (abs (JS.sub a b)) (JS.mul (abs a) FLOAT64_EPS).

(** The test of the inner loop of [populateEdgeCases]:
    [isnan(result) || isinfinite(result) || result === 0]. *)
Definition special_result (result : number) : bool :=
  isnan result || isinfinite result || JS.strict_eq result (JS.of_Z 0).

(** The inner loop over [fns] for one entry of [cases]: [isSpecial] is
    reset once per row and set by any column; the results are the cells
    of the row. *)
Definition edge_cell (input : number)
    (acc : list number * bool) (fn : number -> number)
    : list number * bool :=
  let result := fn input in
  (fst acc ++ [result],
   if special_result result then true else snd acc).

Definition edge_row (fns : list (number -> number)) (input : number)
    : list number * bool :=
  fold_left (edge_cell input) fns ([], false).

(** The outer loop of [populateEdgeCases]: one row per entry of [cases].
    The two tables, local to the function in the source ([cases]: the
    inputs [0], [1], [-1], [-0], NaN, ...; [fns]: [Math.exp], [Math.log],
    [Math.sqrt], [Math.sin]), are taken as arguments, and a cell holds
    the result that [formatNum] prints. *)
Definition populateEdgeCases (cases : list number)
    (fns : list (number -> number)) : list (list number * bool) :=
  map (edge_row fns) cases.

(** [function linspace(start, stop, n)]: [out = new Array(n)], so [n] is
    a length; the cell [i] is [start + (step * i)]. *)
Definition linspace (start stop : number) (n : nat) : list number :=
  if Nat.eqb n 1 then [start]
  else
    let step := JS.div (JS.sub stop start) (JS.of_Z (Z.of_nat n - 1)) in
    map (fun i => JS.add start (JS.mul step (JS.of_Z (Z.of_nat i))))
        (seq 0 n).

(** [function heaviside(x)] of the table [FUNCTIONS]. *)
Definition heaviside (x : number) : number :=
  if JS.lt x (JS.of_Z 0) then JS.of_Z 0
  else if JS.strict_eq x (JS.of_Z 0) then JS.decimal 5 1
  else JS.of_Z 1.

(** [function refSqrt(x)] of the table [REFERENCE_FNS]: the native square
    root, then two Newton steps [guess = 0.5 * (guess + x / guess)]. *)
Definition refSqrt (x : number) : number :=
  if JS.lt x (JS.of_Z 0) then JS.NaN
  else if JS.strict_eq x (JS.of_Z 0) || isinfinite x || isnan x then x
  else
    let guess := JS.Math_sqrt x in
    let guess := JS.mul (JS.decimal 5 1) (JS.add guess (JS.div x guess)) in
    let guess := JS.mul (JS.decimal 5 1) (JS.add guess (JS.div x guess)) in
    guess.

(** What [formatNum] returns: one of four fixed texts, or the text that
    [x.toExponential(4)] or [x.toPrecision(6)] gives for [x]. *)
Inductive formatted : Set :=
| TextNaN
| TextPlusInfinity
| TextMinusInfinity
| TextMinusZero
| Exponential4 (x : number)
| Precision6 (x : number).

(** [function formatNum(x)]. *)
Definition formatNum (x : number) : formatted :=
  if isnan x then TextNaN
  else if JS.strict_eq x PINF then TextPlusInfinity
  else if JS.strict_eq x NINF then TextMinusInfinity
  else if JS.strict_eq x (JS.of_Z 0)
          && JS.strict_eq (JS.div (JS.of_Z 1) x) NINF then TextMinusZero
  else if JS.gt (abs x) (JS.of_Z 1000000)
          || (JS.lt (abs x) (JS.decimal 1 4) && JS.strict_ne x (JS.of_Z 0))
       then Exponential4 x
  else Precision6 x.

(** The variables of the loop of [runAccuracyAnalysis]; an entry of [ulps]
    is the object [{ x, ulp }]. *)
Record analysis : Set := mkAnalysis {
  ulps : list (number * number);
  nAgree : Z;
  maxUlp : number;
  totalUlp : number;
  nDiff : Z
}.

Definition analysis_init : analysis :=
  {| ulps := []; nAgree := 0; maxUlp := JS.of_Z 0; totalUlp := JS.of_Z 0;
     nDiff := 0 |}.

(** [ulps.push({ x, ulp: 0 }); nAgree++; continue;] *)
Definition analysis_agree (st : analysis) (x : number) : analysis :=
  {| ulps := ulps st ++ [(x, JS.of_Z 0)]; nAgree := nAgree st + 1;
     maxUlp := maxUlp st; totalUlp := totalUlp st; nDiff := nDiff st |}.

(** The body of the loop of [runAccuracyAnalysis] once both values are
    computed. *)
Definition analysis_sample (st : analysis) (x refVal natVal : number)
    : analysis :=
  if isnan refVal && isnan natVal then analysis_agree st x
  else if JS.strict_eq refVal natVal then analysis_agree st x
  else
    let d := ulpDiff refVal natVal in
    if negb (isnan d) && negb (isinfinite d) then
      {| ulps := ulps st ++ [(x, d)]; nAgree := nAgree st;
         maxUlp := if JS.gt d (maxUlp st) then d else maxUlp st;
         totalUlp := JS.add (totalUlp st) d; nDiff := nDiff st + 1 |}
    else
      {| ulps := ulps st ++ [(x, JS.of_Z 0)]; nAgree := nAgree st;
         maxUlp := maxUlp st; totalUlp := totalUlp st; nDiff := nDiff st |}.

Definition analysis_step (refFn nativeFn : number -> number)
    (st : analysis) (x : number) : analysis :=
  analysis_sample st x (refFn x) (nativeFn x).

Definition analysis_loop (refFn nativeFn : number -> number)
    (x : list number) : analysis :=
  fold_left (analysis_step refFn nativeFn) x analysis_init.

(** What [runAccuracyAnalysis] writes: the four statistics as numbers,
    before [toLocaleString] and [toFixed] ([None] is the text ['0'] of the
    average), and the arguments of [drawUlpPlot]. *)
Record statistics : Set := mkStatistics {
  statPoints : Z;
  statAgree : number;
  statMaxUlp : number;
  statAvgUlp : option number;
  plotted : list (number * number)
}.

(** [function runAccuracyAnalysis()]; the entry [data] of [REFERENCE_FNS]
    that the selection picks is given by its fields [ref], [native],
    [range] and [n].  The loop [for (i = 0; i < n; i++)] reads the [n]
    cells of [x = linspace(xmin, xmax, n)]. *)
Definition runAccuracyAnalysis (refFn nativeFn : number -> number)
    (xmin xmax : number) (n : nat) : statistics :=
  let st := analysis_loop refFn nativeFn (linspace xmin xmax n) in
  {| statPoints := Z.of_nat n;
     statAgree :=
       JS.mul (JS.div (JS.of_Z (nAgree st)) (JS.of_Z (Z.of_nat n)))
              (JS.of_Z 100);
     statMaxUlp := maxUlp st;
     statAvgUlp :=
       if 0 <? nDiff st
       then Some (JS.div (totalUlp st) (JS.of_Z (nDiff st)))
       else None;
     plotted := ulps st |}.

(** The first loop of [drawPlot]: the finite samples and their range. *)
Record plot_data : Set := mkPlotData {
  points : list (number * number);
  ymin : number;
  ymax : number
}.

Definition plot_init : plot_data :=
  {| points := []; ymin := PINF; ymax := NINF |}.

Definition plot_sample (fn : number -> number) (st : plot_data)
    (x : number) : plot_data :=
  let y := fn x in
  if negb (isnan y) && negb (isinfinite y) then
    {| points := points st ++ [(x, y)];
       ymin := if JS.lt y (ymin st) then y else ymin st;
       ymax := if JS.gt y (ymax st) then y else ymax st |}
  else st.

Definition plot_scan (fn : number -> number) (x : list number) : plot_data :=
  fold_left (plot_sample fn) x plot_init.

End WebApp.

(** ** [lib/ascii_plot.js] *)

Module AsciiPlot.
Import StdlibJS.

Definition PLOT_WIDTH : Z := 60.
Definition PLOT_HEIGHT : Z := 18.

(** The first loop of [plotFunction]: [ymin] and [ymax] over the values
    [y[i] = fn(x[i])] that are neither NaN nor infinite. *)
Definition range_sample (r : number * number) (y : number)
    : number * number :=
  if negb (isnan y) && negb (isinfinite y) then
    (if JS.lt y (fst r) then y else fst r,
     if JS.gt y (snd r) then y else snd r)
  else r.

Definition range_scan (y : list number) : number * number :=
  fold_left range_sample y (JS.Infinity, JS.neg JS.Infinity).

(** [if (ymin === ymax) { ymin -= 1.0; ymax += 1.0; }] *)
Definition range_widen (r : number * number) : number * number :=
  if JS.strict_eq (fst r) (snd r)
  then (JS.sub (fst r) (JS.of_Z 1), JS.add (snd r) (JS.of_Z 1))
  else r.

(** The range that [plotFunction] plots [fn] in, over the abscissas [x]
    that [linspace(xmin, xmax, PLOT_WIDTH)] of [@stdlib] returns. *)
Definition plot_range (fn : number -> number) (x : list number)
    : number * number :=
  range_widen (range_scan (map fn x)).

(** [row = floor(max(0, min(PLOT_HEIGHT - 1, row)))], the clamp that
    precedes both writes [grid[row][i] = ...]. *)
Definition clamp_row (row : number) : number :=
  floor (max (JS.of_Z 0) (min (JS.of_Z (PLOT_HEIGHT - 1)) row)).

End AsciiPlot.

(** ** The policy of the specification, rule by rule

    [machineEpsilon] is [2^-52]; the five rules are tried in order, on the
    structure of the two doubles. *)

Module Policy.

Definition machineEpsilon : number :=
  S754_finite false 4503599627370496 (-104).

(** IEEE equality: the same bits, except that the two zeros are equal
    and NaN is equal to nothing. *)
Definition ieee_equal (a b : number) : bool :=
  match a, b with
  | S754_zero _, S754_zero _ => true
  | S754_infinity sa, S754_infinity sb => Bool.eqb sa sb
  | S754_finite sa ma ea, S754_finite sb mb eb =>
      Bool.eqb sa sb && Pos.eqb ma mb && Z.eqb ea eb
  | _, _ => false
  end.

Definition ulpDistance (a b : number) : number :=
  if ieee_equal a b then S754_zero false
  else
    match a, b with
    | S754_nan, _ | _, S754_nan => S754_nan
    | S754_infinity _, _ | _, S754_infinity _ => S754_infinity false
    | S754_zero _, _ =>
        JS.div (SFabs b) (JS.div machineEpsilon (JS.of_Z 2))
    | _, _ =>
        JS.div (SFabs (JS.sub a b)) (JS.mul (SFabs a) machineEpsilon)
    end.

(** The value of a finite double as a fraction [n / 2^k] (or [n * 2^k]),
    compared with a decimal [d / 10^p] by cross multiplication:
    [decimal_below d p x] is [d / 10^p < x] for a positive finite [x]
    of negative exponent. *)
Definition decimal_below (d : Z) (p : Z) (x : number) : bool :=
  match x with
  | S754_finite false m e => d * 2 ^ (- e) <? Z.pos m * 10 ^ p
  | _ => false
  end.

Definition decimal_above (d : Z) (p : Z) (x : number) : bool :=
  match x with
  | S754_finite false m e => Z.pos m * 10 ^ p <? d * 2 ^ (- e)
  | _ => false
  end.

End Policy.

(** ** The invariant of the accumulators *)

Record sweep_inv (st : Compare.sweep) : Prop := mkSweepInv {
  inv_agree : 0 <= Compare.nAgree st <= Compare.nTotal st;
  inv_max_finite : JS.is_finite (Compare.maxUlpDiff st) = true;
  inv_max_nonneg : JS.le JS.pos_zero (Compare.maxUlpDiff st) = true;
  inv_divergent : JS.gt (Compare.maxUlpDiff st) (JS.of_Z 0) = true ->
                  Compare.nAgree st < Compare.nTotal st
}.

(** ** Inputs of the examples *)

(** The inputs that reach [nTotal] when both sides are [f]. *)
Definition finite_results (f : number -> number) (pts : list number)
    : list number :=
  filter (fun x => JS.is_finite (f x)) pts.

(** The smallest normal double, [2^-1022], and [1.5 * 2^-51]. *)
Definition smallest_normal : number :=
  S754_finite false 4503599627370496 (-1074).

Definition three_halves_2m51 : number :=
  S754_finite false 6755399441055744 (-103).

(** A function that saturates from [710] on. *)
Definition saturating (x : number) : number :=
  if JS.lt x (JS.of_Z 710) then JS.of_Z 1 else JS.Infinity.

(** A column whose value at [0] is [1], as [Math.exp(0)] is. *)
Definition one_at_zero (x : number) : number := JS.of_Z 1.

(** The double [5e-324], the smallest positive subnormal [2^-1074]. *)
Definition min_subnormal : number := S754_finite false 1 (-1074).

(** ** Orders, counts and invariants used by the further properties *)

Definition order_key (x : number) : Z * Z * Z :=
  match x with
  | S754_nan => (0, 0, 0)
  | S754_zero _ => (0, 0, 0)
  | S754_infinity true => (-2, 0, 0)
  | S754_infinity false => (2, 0, 0)
  | S754_finite true m e => (-1, - e, - Z.pos m)
  | S754_finite false m e => (1, e, Z.pos m)
  end.

Definition key_lt (k1 k2 : Z * Z * Z) : Prop :=
  let '(a1, b1, c1) := k1 in
  let '(a2, b2, c2) := k2 in
  a1 < a2 \/ (a1 = a2 /\ (b1 < b2 \/ (b1 = b2 /\ c1 < c2))).

(** What the loop knows of the points seen so far. *)
Record worst_inv (stdlibFn nativeFn : number -> number)
    (seen : list number) (st : Compare.sweep) : Prop := mkWorstInv {
  worst_bound : forall x, In x seen ->
    JS.is_finite (Compare.ulpDiff (stdlibFn x) (nativeFn x)) = true ->
    JS.le (Compare.ulpDiff (stdlibFn x) (nativeFn x)) (Compare.maxUlpDiff st) = true;
  worst_attained : JS.gt (Compare.maxUlpDiff st) (JS.of_Z 0) = true ->
    In (Compare.worstCase st) seen
    /\ Compare.ulpDiff (stdlibFn (Compare.worstCase st)) (nativeFn (Compare.worstCase st))
       = Compare.maxUlpDiff st
}.

(** The samples that [runComparison] counts in [nTotal], and those it
    counts in [nAgree]. *)
Definition comparable (stdlibFn nativeFn : number -> number) (x : number)
    : bool :=
  negb (JS.is_nan (stdlibFn x) && JS.is_nan (nativeFn x))
  && negb (JS.is_inf (stdlibFn x) && JS.is_inf (nativeFn x)
           && JS.strict_eq (stdlibFn x) (nativeFn x)).

Definition agreeing (stdlibFn nativeFn : number -> number) (x : number)
    : bool :=
  JS.strict_eq (stdlibFn x) (nativeFn x) && JS.is_finite (stdlibFn x).

(** What the loop of [runAccuracyAnalysis] keeps. *)
Record analysis_inv (seen : list number) (st : WebApp.analysis) : Prop :=
  mkAnalysisInv {
  ana_abscissas : map fst (WebApp.ulps st) = seen;
  ana_entries : forall e, In e (WebApp.ulps st) ->
    JS.is_finite (snd e) = true
    /\ JS.le (JS.of_Z 0) (snd e) = true
    /\ JS.le (snd e) (WebApp.maxUlp st) = true;
  ana_counts : 0 <= WebApp.nAgree st /\ 0 <= WebApp.nDiff st
               /\ WebApp.nAgree st + WebApp.nDiff st <= Z.of_nat (length seen);
  ana_max_finite : JS.is_finite (WebApp.maxUlp st) = true;
  ana_max_nonneg : JS.le (JS.of_Z 0) (WebApp.maxUlp st) = true;
  ana_divergent : JS.gt (WebApp.maxUlp st) (JS.of_Z 0) = true -> 0 < WebApp.nDiff st
}.

(** How the variables of the two loops are related after the same points. *)
Record loops_related (seen : list number)
    (w : WebApp.analysis) (c : Compare.sweep) : Prop := mkLoopsRelated {
  rel_max : WebApp.maxUlp w = Compare.maxUlpDiff c;
  rel_total : WebApp.totalUlp w = Compare.totalDiff c;
  rel_agree : WebApp.nAgree w
              = Compare.nAgree c
                + (Z.of_nat (length seen) - Compare.nTotal c);
  rel_diff : WebApp.nDiff w <= Compare.nTotal c - Compare.nAgree c
}.

Definition positive_finite (x : number) : bool :=
  match x with S754_finite false _ _ => true | _ => false end.

(** What the first loop of [plotFunction] keeps of the values seen. *)
Record range_inv (seen : list number) (r : number * number) : Prop :=
  mkRangeInv {
  range_bounds : forall y, In y seen -> JS.is_finite y = true ->
    JS.le (fst r) y = true /\ JS.le y (snd r) = true;
  range_ends :
    (r = (JS.Infinity, JS.neg JS.Infinity)
     /\ forall y, In y seen -> JS.is_finite y = false)
    \/ (In (fst r) seen /\ In (snd r) seen
        /\ JS.is_finite (fst r) = true /\ JS.is_finite (snd r) = true)
}.

(** The finite samples of [fn] over the abscissas [x], as [drawPlot]
    pushes them. *)
Definition finite_samples (fn : number -> number) (x : list number)
    : list (number * number) :=
  filter (fun p => JS.is_finite (snd p)) (map (fun v => (v, fn v)) x).

(** The running sum is never NaN and never negative. *)
Definition total_inv (st : Compare.sweep) : Prop :=
  JS.is_nan (Compare.totalDiff st) = false /\ JS.sign_clear (Compare.totalDiff st) = true.

(** Where the loop met the maximum: the points before [worstCase] have a
    smaller distance. *)
Definition first_inv (stdlibFn nativeFn : number -> number)
    (seen : list number) (st : Compare.sweep) : Prop :=
  JS.gt (Compare.maxUlpDiff st) (JS.of_Z 0) = true ->
  exists before after,
    seen = before ++ Compare.worstCase st :: after
    /\ forall x, In x before ->
         JS.is_finite (Compare.ulpDiff (stdlibFn x) (nativeFn x)) = true ->
         JS.lt (Compare.ulpDiff (stdlibFn x) (nativeFn x))
               (Compare.maxUlpDiff st) = true.

(** ** The helpers compute the structural classification *)

(** Case analysis on the class of a double and on its sign. *)
Ltac number_cases x :=
  let s := fresh "s" in
  destruct x as [s | s | | s ? ?]; try destruct s.

Section Classification.

Lemma strict_eq_refl (x : number) :
  JS.is_nan x = false -> JS.strict_eq x x = true.
Proof.
  destruct x as [s | s | | s m e]; simpl; try discriminate; intros _.
  - reflexivity.
  - destruct s; reflexivity.
  - unfold JS.strict_eq, SFeqb, SFcompare.
    rewrite Z.compare_refl, Pos.compare_cont_refl.
    destruct s; reflexivity.
Qed.

Lemma isnan_is_nan (x : number) : StdlibJS.isnan x = JS.is_nan x.
Proof.
  unfold StdlibJS.isnan, JS.strict_ne.
  destruct (JS.is_nan x) eqn:E.
  - destruct x; try discriminate E. reflexivity.
  - fold (JS.strict_eq x x). now rewrite strict_eq_refl.
Qed.

Lemma isinfinite_is_inf (x : number) : StdlibJS.isinfinite x = JS.is_inf x.
Proof. number_cases x; reflexivity. Qed.

Lemma web_isnan_is_nan (x : number) : WebApp.isnan x = JS.is_nan x.
Proof. exact (isnan_is_nan x). Qed.

Lemma web_isinfinite_is_inf (x : number) : WebApp.isinfinite x = JS.is_inf x.
Proof. exact (isinfinite_is_inf x). Qed.

Lemma strict_eq_zero (x : number) :
  JS.strict_eq x JS.pos_zero = JS.is_zero x.
Proof. number_cases x; reflexivity. Qed.

(** [===] on Numbers is IEEE equality. *)
Lemma strict_eq_ieee_equal (x y : number) :
  JS.strict_eq x y = Policy.ieee_equal x y.
Proof.
  destruct x as [sx | sx | | sx mx ex], y as [sy | sy | | sy my ey];
    try reflexivity; try (destruct sx; reflexivity);
    try (destruct sy; reflexivity); try (destruct sx, sy; reflexivity).
  unfold JS.strict_eq, SFeqb, SFcompare, Policy.ieee_equal.
  fold (Pos.compare mx my).
  destruct (Z.compare_spec ex ey) as [He | He | He];
    [| replace (ex =? ey) with false by (symmetry; apply Z.eqb_neq; lia);
       rewrite andb_false_r; destruct sx, sy; reflexivity ..].
  subst ey. rewrite Z.eqb_refl, andb_true_r.
  destruct (Pos.compare_spec mx my) as [Hm | Hm | Hm];
    [| replace (mx =? my)%positive with false
         by (symmetry; apply Pos.eqb_neq; lia);
       rewrite andb_false_r; destruct sx, sy; reflexivity ..].
  subst my. rewrite Pos.eqb_refl, andb_true_r.
  destruct sx, sy; reflexivity.
Qed.

End Classification.

(** The literal [2.2204460492503131e-16] of [web/app.js] denotes the same
    double [2^-52] as the constant of [@stdlib]. *)
Lemma web_eps_literal :
  WebApp.FLOAT64_EPS = StdlibJS.FLOAT64_EPS
  /\ Policy.decimal_above 22204460492503131 32
       (S754_finite false 18014398509481983 (-106)) = true
  /\ Policy.decimal_below 22204460492503131 32
       (S754_finite false 9007199254740993 (-105)) = true.
Proof. repeat split; vm_compute; reflexivity. Qed.

(** ** Signs of rounded results *)

Section Signs.

(** Rounding keeps the sign it is given. *)
Lemma round_aux_sign (s : bool) (m e : Z) (l : location) :
  JS.sign_bit (binary_round_aux JS.prec JS.emax s m e l) = Some s
  \/ binary_round_aux JS.prec JS.emax s m e l = S754_nan.
Proof.
  unfold binary_round_aux.
  destruct (shr_fexp JS.prec JS.emax m e l) as [mrs1 e1].
  destruct (shr_fexp JS.prec JS.emax _ e1 loc_Exact) as [mrs2 e2].
  destruct (shr_m mrs2); [left | | right]; try reflexivity.
  destruct (e2 <=? JS.emax - JS.prec); left; reflexivity.
Qed.

Lemma round_aux_sign_clear (m e : Z) (l : location) :
  JS.sign_clear (binary_round_aux JS.prec JS.emax false m e l) = true.
Proof.
  unfold JS.sign_clear.
  destruct (round_aux_sign false m e l) as [H | H]; rewrite H; reflexivity.
Qed.

Lemma abs_sign_clear (x : number) : JS.sign_clear (SFabs x) = true.
Proof. destruct x; reflexivity. Qed.

Lemma div_sign_clear (x y : number) :
  JS.sign_clear x = true -> JS.sign_clear y = true ->
  JS.sign_clear (JS.div x y) = true.
Proof.
  destruct x as [sx | sx | | sx mx ex], y as [sy | sy | | sy my ey];
    try destruct sx; try destruct sy; try discriminate; intros _ _;
    try reflexivity.
  unfold JS.div, SFdiv.
  destruct (SFdiv_core_binary JS.prec JS.emax (Z.pos mx) ex (Z.pos my) ey)
    as [[mz ez] lz].
  apply round_aux_sign_clear.
Qed.

Lemma mul_sign_clear (x y : number) :
  JS.sign_clear x = true -> JS.sign_clear y = true ->
  JS.sign_clear (JS.mul x y) = true.
Proof.
  destruct x as [sx | sx | | sx mx ex], y as [sy | sy | | sy my ey];
    try destruct sx; try destruct sy; try discriminate; intros _ _;
    try reflexivity.
  apply round_aux_sign_clear.
Qed.

(** A value above a non-negative one is non-negative. *)
Lemma gt_nonneg (d m : number) :
  JS.le JS.pos_zero m = true -> JS.gt d m = true ->
  JS.le JS.pos_zero d = true.
Proof.
  number_cases m; number_cases d; try discriminate; reflexivity.
Qed.

End Signs.

(** ** What [ulpDiff] returns *)

Section UlpDiffResults.

Lemma ulpDiff_policy (a b : number) :
  Compare.ulpDiff a b = Policy.ulpDistance a b.
Proof.
  unfold Compare.ulpDiff, Policy.ulpDistance.
  rewrite <- strict_eq_ieee_equal.
  destruct (JS.strict_eq a b); [reflexivity |].
  rewrite !isnan_is_nan, !isinfinite_is_inf, strict_eq_zero.
  destruct a, b; reflexivity.
Qed.

Lemma ulpDiff_sign_clear (a b : number) :
  JS.sign_clear (Compare.ulpDiff a b) = true.
Proof.
  rewrite ulpDiff_policy. unfold Policy.ulpDistance.
  destruct (Policy.ieee_equal a b); [reflexivity |].
  destruct a, b; try reflexivity;
    apply div_sign_clear;
    first [ apply abs_sign_clear | reflexivity
          | apply mul_sign_clear; reflexivity ].
Qed.

(** When one side is infinite and the two differ, the distance is
    [+Infinity]. *)
Lemma ulpDiff_infinite (a b : number) :
  JS.strict_eq a b = false ->
  JS.is_nan a = false -> JS.is_nan b = false ->
  JS.is_inf a || JS.is_inf b = true ->
  Compare.ulpDiff a b = JS.Infinity.
Proof.
  intros Hne Ha Hb Hinf. rewrite ulpDiff_policy. unfold Policy.ulpDistance.
  rewrite <- strict_eq_ieee_equal, Hne.
  destruct a, b; try discriminate; reflexivity.
Qed.

End UlpDiffResults.

(** ** Invariants of the sweep *)

Section SweepInvariant.

Import Compare.

Lemma sweep_inv_init : sweep_inv sweep_init.
Proof. split; simpl; try reflexivity; try lia. discriminate. Qed.

Lemma not_nan_not_inf_finite (d : number) :
  negb (StdlibJS.isnan d) && negb (StdlibJS.isinfinite d) = true ->
  JS.is_finite d = true.
Proof.
  rewrite isnan_is_nan, isinfinite_is_inf.
  destruct d; simpl; auto.
Qed.

Lemma sweep_inv_accumulate (st : sweep) (x diff : number) :
  sweep_inv st -> JS.is_finite diff = true ->
  sweep_inv (accumulate (count_total st) x diff).
Proof.
  intros [Hagree Hfin Hnonneg Hdiv] Hd. unfold accumulate.
  destruct (JS.gt diff (maxUlpDiff (count_total st))) eqn:Hgt;
    split; simpl in *; try lia; try assumption.
  eapply gt_nonneg; eassumption.
Qed.

Lemma sweep_inv_sample (st : sweep) (x v w : number) :
  sweep_inv st -> sweep_inv (sweep_sample st x v w).
Proof.
  intros Hinv. unfold sweep_sample.
  destruct (StdlibJS.isnan v && StdlibJS.isnan w); [assumption |].
  destruct (StdlibJS.isinfinite v && StdlibJS.isinfinite w
            && JS.strict_eq v w); [assumption |].
  destruct (JS.strict_eq v w).
  - destruct Hinv as [Hagree Hfin Hnonneg Hdiv].
    split; simpl; try assumption; try lia.
    intros H. specialize (Hdiv H). lia.
  - destruct (negb (StdlibJS.isnan (ulpDiff v w))
              && negb (StdlibJS.isinfinite (ulpDiff v w))) eqn:Hd.
    + apply sweep_inv_accumulate; [assumption |].
      now apply not_nan_not_inf_finite.
    + destruct Hinv as [Hagree Hfin Hnonneg Hdiv].
      split; simpl; try assumption; lia.
Qed.

Section Loop.

Variables stdlibFn nativeFn : number -> number.

Lemma fold_sweep_inv (testPoints : list number) (st : sweep) :
  sweep_inv st ->
  sweep_inv (fold_left (sweep_step stdlibFn nativeFn) testPoints st).
Proof.
  revert st. induction testPoints as [| x rest IH]; intros st Hinv.
  - exact Hinv.
  - simpl. apply IH. unfold sweep_step. now apply sweep_inv_sample.
Qed.

Lemma sweep_loop_inv (testPoints : list number) :
  sweep_inv (sweep_loop stdlibFn nativeFn testPoints).
Proof. apply fold_sweep_inv, sweep_inv_init. Qed.

End Loop.

End SweepInvariant.

(** ** A function compared with itself *)

Section SelfComparison.

Import Compare.

Lemma sweep_sample_same (st : sweep) (x v : number) :
  sweep_sample st x v v =
  if JS.is_finite v then count_agree (count_total st) else st.
Proof.
  unfold sweep_sample.
  rewrite isnan_is_nan, isinfinite_is_inf.
  destruct (JS.is_nan v) eqn:Hnan.
  - destruct v; try discriminate. reflexivity.
  - rewrite (strict_eq_refl v Hnan).
    destruct v; try discriminate; reflexivity.
Qed.

Section OneFunction.

Variable f : number -> number.

Lemma fold_sweep_same (pts : list number) (st : sweep) :
  fold_left (sweep_step f f) pts st =
  {| maxUlpDiff := maxUlpDiff st; totalDiff := totalDiff st;
     worstCase := worstCase st;
     nAgree := nAgree st + Z.of_nat (length (finite_results f pts));
     nTotal := nTotal st + Z.of_nat (length (finite_results f pts)) |}.
Proof.
  revert st. induction pts as [| x rest IH]; intros st.
  - simpl. rewrite !Z.add_0_r. destruct st; reflexivity.
  - simpl fold_left. rewrite IH. unfold sweep_step.
    rewrite sweep_sample_same. simpl finite_results.
    destruct (JS.is_finite (f x)); simpl; f_equal; lia.
Qed.

Lemma sweep_loop_same (pts : list number) :
  sweep_loop f f pts =
  {| maxUlpDiff := JS.pos_zero; totalDiff := JS.pos_zero;
     worstCase := JS.pos_zero;
     nAgree := Z.of_nat (length (finite_results f pts));
     nTotal := Z.of_nat (length (finite_results f pts)) |}.
Proof. unfold sweep_loop. rewrite fold_sweep_same. reflexivity. Qed.

Lemma finite_results_all (pts : list number) :
  length (finite_results f pts) = length pts <->
  forallb (fun x => JS.is_finite (f x)) pts = true.
Proof.
  unfold finite_results. induction pts as [| x rest IH]; simpl.
  - tauto.
  - pose proof (filter_length_le (fun x => JS.is_finite (f x)) rest) as Hle.
    destruct (JS.is_finite (f x)); simpl.
    + rewrite <- IH. lia.
    + split; [lia | discriminate].
Qed.

End OneFunction.

End SelfComparison.

(** ** Rounding a non-zero mantissa at an exponent of the format

    A mantissa at an exponent not below [emin] never rounds to a zero:
    the right shift of [shr_fexp] is shorter than the mantissa. *)

Section Rounding.
Lemma iter_pos_nat {A : Type} (f : A -> A) (k : positive) (x : A) :
  iter_pos f k x = Nat.iter (Pos.to_nat k) f x.
Proof.
  revert x. induction k as [k IH | k IH |]; intros x; cbn [iter_pos].
  - rewrite !IH. rewrite Pos2Nat.inj_xI.
    replace (S (2 * Pos.to_nat k))%nat with (Pos.to_nat k + (Pos.to_nat k + 1))%nat by lia.
    rewrite !Nat.iter_add. reflexivity.
  - rewrite !IH. rewrite Pos2Nat.inj_xO.
    replace (2 * Pos.to_nat k)%nat with (Pos.to_nat k + Pos.to_nat k)%nat by lia.
    rewrite Nat.iter_add. reflexivity.
  - reflexivity.
Qed.

Lemma shr_1_pos (p : positive) (r s : bool) :
  (1 < Pos.to_nat (digits2_pos p))%nat ->
  exists q r' s',
    shr_1 (Build_shr_record (Z.pos p) r s) = Build_shr_record (Z.pos q) r' s'
    /\ Pos.to_nat (digits2_pos q) = (Pos.to_nat (digits2_pos p) - 1)%nat.
Proof.
  destruct p as [p | p |]; simpl; intros H.
  - exists p, true, (r || s)%bool. split; [reflexivity | rewrite Pos2Nat.inj_succ; lia].
  - exists p, false, (r || s)%bool. split; [reflexivity | rewrite Pos2Nat.inj_succ; lia].
  - lia.
Qed.

Lemma shr_iter_pos (n : nat) :
  forall (p : positive) (r s : bool),
  (n < Pos.to_nat (digits2_pos p))%nat ->
  exists q r' s',
    Nat.iter n shr_1 (Build_shr_record (Z.pos p) r s)
    = Build_shr_record (Z.pos q) r' s'.
Proof.
  induction n as [| n IH]; intros p r s Hn.
  - exists p, r, s. reflexivity.
  - rewrite Nat.iter_succ_r.
    destruct (shr_1_pos p r s) as (q & r' & s' & Hq & Hd); [lia |].
    rewrite Hq. apply IH. lia.
Qed.

Lemma fexp_ge_emin (e : Z) : emin JS.prec JS.emax <= fexp JS.prec JS.emax e.
Proof. unfold fexp. lia. Qed.

Lemma shr_fexp_pos (p : positive) (e : Z) (l : location) :
  emin JS.prec JS.emax <= e ->
  exists q r s e',
    shr_fexp JS.prec JS.emax (Z.pos p) e l = (Build_shr_record (Z.pos q) r s, e')
    /\ emin JS.prec JS.emax <= e'.
Proof.
  intros He. unfold shr_fexp, shr.
  assert (Hrec : exists r s, shr_record_of_loc (Z.pos p) l = Build_shr_record (Z.pos p) r s).
  { destruct l as [| []]; simpl; eauto. }
  destruct Hrec as (r & s & Hrec). rewrite Hrec.
  destruct (fexp JS.prec JS.emax (Zdigits2 (Z.pos p) + e) - e) as [| k | k] eqn:Hk.
  - exists p, r, s, e. auto.
  - rewrite iter_pos_nat.
    destruct (shr_iter_pos (Pos.to_nat k) p r s) as (q & r' & s' & Hq).
    + unfold fexp, emin, JS.prec, JS.emax in *. simpl Zdigits2 in Hk. lia.
    + rewrite Hq. exists q, r', s', (e + Z.pos k). split; [reflexivity | lia].
  - exists p, r, s, e. auto.
Qed.

Lemma round_nearest_even_pos (q : positive) (l : location) :
  exists q', round_nearest_even (Z.pos q) l = Z.pos q'.
Proof.
  destruct l as [| []]; simpl; eauto.
  destruct q; simpl; eauto.
Qed.

Lemma round_aux_nonzero (s : bool) (p : positive) (e : Z) (l : location) :
  emin JS.prec JS.emax <= e ->
  (exists m' e', binary_round_aux JS.prec JS.emax s (Z.pos p) e l = S754_finite s m' e')
  \/ binary_round_aux JS.prec JS.emax s (Z.pos p) e l = S754_infinity s.
Proof.
  intros He. unfold binary_round_aux.
  destruct (shr_fexp_pos p e l He) as (q & r1 & s1 & e1 & H1 & He1).
  rewrite H1. cbn [shr_m].
  destruct (round_nearest_even_pos q (loc_of_shr_record (Build_shr_record (Z.pos q) r1 s1))) as (q' & Hq').
  rewrite Hq'.
  destruct (shr_fexp_pos q' e1 loc_Exact He1) as (q2 & r2 & s2 & e2 & H2 & He2).
  rewrite H2. cbn [shr_m].
  destruct (e2 <=? JS.emax - JS.prec); eauto.
Qed.

Lemma binary_round_nonzero (s : bool) (p : positive) (e : Z) :
  emin JS.prec JS.emax <= e ->
  (exists m' e', binary_round JS.prec JS.emax s p e = S754_finite s m' e')
  \/ binary_round JS.prec JS.emax s p e = S754_infinity s.
Proof.
  intros He. unfold binary_round, shl_align.
  destruct (fexp JS.prec JS.emax (Z.pos (digits2_pos p) + e) - e) eqn:Hk;
    apply round_aux_nonzero; try assumption.
  apply fexp_ge_emin.
Qed.
End Rounding.

(** ** The two absolute values *)

Section AbsoluteValues.

Lemma wf_exponent (s : bool) (m : positive) (e : Z) :
  JS.wf (S754_finite s m e) = true -> emin JS.prec JS.emax <= e.
Proof.
  unfold JS.wf, valid_binary, bounded, canonical_mantissa.
  intros H. apply andb_prop in H. destruct H as [H _].
  apply Z.eqb_eq in H. rewrite <- H. apply fexp_ge_emin.
Qed.

(** A difference whose left operand is not a zero is never [-0]. *)
Lemma sub_not_neg_zero (a b : number) :
  JS.wf a = true -> JS.wf b = true -> JS.is_zero a = false ->
  JS.sub a b <> JS.neg_zero.
Proof.
  intros Ha Hb Hz.
  destruct a as [sa | sa | | sa ma ea]; try discriminate Hz;
    destruct b as [sb | sb | | sb mb eb];
    try (simpl; try destruct sa; try destruct sb; discriminate).
  unfold JS.sub, SFsub, binary_normalize.
  apply wf_exponent in Ha. apply wf_exponent in Hb.
  assert (He : emin JS.prec JS.emax <= Z.min ea eb) by lia.
  match goal with
  | |- context [match ?z with Z0 => _ | Z.pos _ => _ | Z.neg _ => _ end] =>
      destruct z as [| p | p]
  end.
  - discriminate.
  - destruct (binary_round_nonzero false p _ He) as [(m' & e' & H) | H];
      rewrite H; discriminate.
  - destruct (binary_round_nonzero true p _ He) as [(m' & e' & H) | H];
      rewrite H; discriminate.
Qed.

(** [(x < 0) ? -x : x] and [Math.abs] differ at [-0] only. *)
Lemma web_abs_abs (x : number) :
  x <> JS.neg_zero -> WebApp.abs x = StdlibJS.abs x.
Proof.
  intros Hx. number_cases x; try reflexivity. now elim Hx.
Qed.

Lemma web_abs_neg_zero : WebApp.abs JS.neg_zero = JS.neg_zero.
Proof. reflexivity. Qed.

End AbsoluteValues.

(** ** Samples at infinite distance *)

Section InfiniteDistance.

Import Compare.

(** Two values that differ, neither NaN, one of them infinite: the
    sample is comparable and nothing else is accumulated. *)
Lemma sweep_sample_infinite_distance (st : sweep) (x v w : number) :
  JS.strict_eq v w = false ->
  JS.is_nan v = false -> JS.is_nan w = false ->
  JS.is_inf v || JS.is_inf w = true ->
  sweep_sample st x v w = count_total st.
Proof.
  intros Hne Hv Hw Hinf. unfold sweep_sample.
  rewrite (ulpDiff_infinite v w Hne Hv Hw Hinf).
  rewrite !isnan_is_nan, Hv, Hw, Hne. cbn [andb].
  rewrite andb_false_r. reflexivity.
Qed.

Lemma infinity_ne_finite (s : bool) (v : number) :
  JS.is_finite v = true ->
  JS.strict_eq (S754_infinity s) v = false
  /\ JS.strict_eq v (S754_infinity s) = false
  /\ JS.is_nan v = false.
Proof.
  destruct v as [sv | sv | | sv mv ev]; try discriminate; intros _;
    destruct s; try destruct sv; repeat split.
Qed.

End InfiniteDistance.

(** ** The rows of the edge case table *)

Section EdgeRows.

Import WebApp.

Lemma special_result_classes (r : number) :
  special_result r = JS.is_nan r || JS.is_inf r || JS.is_zero r.
Proof.
  unfold special_result.
  rewrite web_isnan_is_nan, web_isinfinite_is_inf.
  change (JS.of_Z 0) with JS.pos_zero. rewrite strict_eq_zero.
  reflexivity.
Qed.

Lemma fold_edge_cell (input : number) (fns : list (number -> number)) :
  forall (cells : list number) (flag : bool),
  fold_left (edge_cell input) fns (cells, flag) =
  (cells ++ map (fun fn => fn input) fns,
   flag || existsb (fun fn => special_result (fn input)) fns).
Proof.
  induction fns as [| fn rest IH]; intros cells flag; simpl.
  - now rewrite app_nil_r, orb_false_r.
  - unfold edge_cell at 2. simpl. rewrite IH, <- app_assoc. simpl.
    destruct (special_result (fn input)), flag; reflexivity.
Qed.

Lemma edge_row_cells_flag (fns : list (number -> number)) (input : number) :
  edge_row fns input =
  (map (fun fn => fn input) fns,
   existsb (fun fn => special_result (fn input)) fns).
Proof. unfold edge_row. now rewrite fold_edge_cell. Qed.

Lemma existsb_special (fns : list (number -> number)) (input : number) :
  existsb (fun fn => special_result (fn input)) fns
  = existsb (fun fn => JS.is_nan (fn input) || JS.is_inf (fn input)
                       || JS.is_zero (fn input)) fns.
Proof.
  induction fns as [| fn rest IH]; simpl.
  - reflexivity.
  - now rewrite IH, special_result_classes.
Qed.

End EdgeRows.

(** * The properties of the specification *)

(** ** C1: the five rules *)

(** C1.  For all doubles [a] and [b], [ulpDiff a b] of [lib/compare.js] is
    the value that the five rules of the policy give, tried in order:
    [+0] when [a == b] under IEEE equality; else NaN when one of them is
    NaN; else [+Infinity] when one of them is infinite; else
    [|b| / (eps / 2)] when [a] is a zero; else [|a - b| / (|a| * eps)].
    The constant [eps] is the double [2^-52], [eps / 2] is [2^-53], and
    the decimal [2.220446049250313e-16] lies strictly between
    [2^-52 - 2^-106] and [2^-52 + 2^-105], the midpoints to the
    neighbouring doubles, so it denotes that double. *)
Theorem ulpDiff_five_rules :
  (forall a b : number, Compare.ulpDiff a b = Policy.ulpDistance a b)
  /\ StdlibJS.FLOAT64_EPS = Policy.machineEpsilon
  /\ JS.div Policy.machineEpsilon (JS.of_Z 2)
     = S754_finite false 4503599627370496 (-105)
  /\ Policy.decimal_above 2220446049250313 31
       (S754_finite false 18014398509481983 (-106)) = true
  /\ Policy.decimal_below 2220446049250313 31
       (S754_finite false 9007199254740993 (-105)) = true.
Proof.
  split; [exact ulpDiff_policy |].
  repeat split; vm_compute; reflexivity.
Qed.

(** ** C2: a sample where both sides are NaN *)

(** C2, amended.  A sample at which both functions return NaN only counts
    as a tested point: wherever it is met the loop leaves every
    accumulator as it was, and a sweep extended by such a sample has one
    more point tested and the same [exactAgreements], the same
    [totalComparable] and the same sums. *)
Theorem both_nan_sample_skipped
    (stdlibFn nativeFn : number -> number) (testPoints : list number)
    (x : number) :
  stdlibFn x = JS.NaN -> nativeFn x = JS.NaN ->
  (forall st, Compare.sweep_step stdlibFn nativeFn st x = st)
  /\ Compare.sweep_loop stdlibFn nativeFn (testPoints ++ [x])
     = Compare.sweep_loop stdlibFn nativeFn testPoints
  /\ Compare.pointsTested
       (Compare.runComparison stdlibFn nativeFn (testPoints ++ [x]))
     = Compare.pointsTested
         (Compare.runComparison stdlibFn nativeFn testPoints) + 1
  /\ Compare.exactAgreements
       (Compare.runComparison stdlibFn nativeFn (testPoints ++ [x]))
     = Compare.exactAgreements
         (Compare.runComparison stdlibFn nativeFn testPoints)
  /\ Compare.totalComparable
       (Compare.runComparison stdlibFn nativeFn (testPoints ++ [x]))
     = Compare.totalComparable
         (Compare.runComparison stdlibFn nativeFn testPoints).
Proof.
  intros Hs Hn.
  assert (Hstep : forall st, Compare.sweep_step stdlibFn nativeFn st x = st).
  { intros st. unfold Compare.sweep_step. rewrite Hs, Hn. reflexivity. }
  assert (Hloop : Compare.sweep_loop stdlibFn nativeFn (testPoints ++ [x])
                  = Compare.sweep_loop stdlibFn nativeFn testPoints).
  { unfold Compare.sweep_loop. rewrite fold_left_app. simpl. apply Hstep. }
  split; [exact Hstep |]. split; [exact Hloop |].
  unfold Compare.runComparison. rewrite Hloop. simpl.
  rewrite length_app. simpl. repeat split. lia.
Qed.

(** The square root against itself: the point [-1], where it is NaN,
    after the point [4]. *)
Lemma both_nan_sample_skipped_witness :
  JS.Math_sqrt (JS.of_Z (-1)) = JS.NaN
  /\ Compare.pointsTested
       (Compare.runComparison JS.Math_sqrt JS.Math_sqrt
          ([JS.of_Z 4] ++ [JS.of_Z (-1)]))
     = Compare.pointsTested
         (Compare.runComparison JS.Math_sqrt JS.Math_sqrt [JS.of_Z 4]) + 1
  /\ Compare.exactAgreements
       (Compare.runComparison JS.Math_sqrt JS.Math_sqrt
          ([JS.of_Z 4] ++ [JS.of_Z (-1)]))
     = Compare.exactAgreements
         (Compare.runComparison JS.Math_sqrt JS.Math_sqrt [JS.of_Z 4])
  /\ Compare.totalComparable
       (Compare.runComparison JS.Math_sqrt JS.Math_sqrt
          ([JS.of_Z 4] ++ [JS.of_Z (-1)]))
     = Compare.totalComparable
         (Compare.runComparison JS.Math_sqrt JS.Math_sqrt [JS.of_Z 4]).
Proof.
  split; [reflexivity |].
  apply (both_nan_sample_skipped JS.Math_sqrt JS.Math_sqrt
           [JS.of_Z 4] (JS.of_Z (-1))); reflexivity.
Defined.

(** C2 as stated fails: in the sweep of the square root against itself
    over the single point [-1] both values are NaN, one point is tested,
    and no exact agreement is counted; the sample does not add one to
    [nAgree]. *)
Lemma both_nan_not_an_agreement :
  JS.Math_sqrt (JS.of_Z (-1)) = JS.NaN
  /\ Compare.pointsTested
       (Compare.runComparison JS.Math_sqrt JS.Math_sqrt [JS.of_Z (-1)]) = 1
  /\ Compare.exactAgreements
       (Compare.runComparison JS.Math_sqrt JS.Math_sqrt [JS.of_Z (-1)]) = 0
  /\ Compare.nAgree
       (Compare.sweep_sample Compare.sweep_init (JS.of_Z (-1)) JS.NaN JS.NaN)
     <> Compare.nAgree Compare.sweep_init + 1.
Proof. repeat split. discriminate. Qed.

(** ** C3: a function against itself *)

(** C3, amended.  For every function [f] and every input sequence, the
    sweep of [f] against [f] has [exactAgreements = totalComparable], both
    equal to the number of inputs at which [f] is finite (neither NaN nor
    infinite), a maximal ULP difference of [0] and the report of perfect
    agreement; the two counts equal [pointsTested] exactly when [f] is
    finite at every input. *)
Theorem self_comparison_counts (f : number -> number) (inputs : list number) :
  let r := Compare.runComparison f f inputs in
  Compare.exactAgreements r = Compare.totalComparable r
  /\ Compare.totalComparable r
     = Z.of_nat (length (finite_results f inputs))
  /\ Compare.totalComparable r <= Compare.pointsTested r
  /\ (Compare.totalComparable r = Compare.pointsTested r
      <-> forallb (fun x => JS.is_finite (f x)) inputs = true)
  /\ Compare.maxUlpDiff (Compare.sweep_loop f f inputs) = JS.pos_zero
  /\ Compare.ulpLines r = Compare.PerfectAgreement.
Proof.
  unfold Compare.runComparison, Compare.report_of.
  rewrite sweep_loop_same. simpl.
  pose proof (filter_length_le (fun x => JS.is_finite (f x)) inputs) as Hle.
  fold (finite_results f inputs) in Hle.
  repeat split; try lia.
  - intros H. apply finite_results_all. lia.
  - intros H. apply finite_results_all in H. lia.
Qed.

(** C3 as stated fails on a non-empty input: the square root against
    itself over the single point [-1] tests one point and has no
    comparable sample. *)
Lemma self_comparison_nan_point :
  let r := Compare.runComparison JS.Math_sqrt JS.Math_sqrt [JS.of_Z (-1)] in
  Compare.pointsTested r = 1
  /\ Compare.totalComparable r = 0
  /\ Compare.exactAgreements r = 0
  /\ Compare.totalComparable r <> Compare.pointsTested r.
Proof. repeat split. discriminate. Qed.

(** ** C4: the average and the statistics that are printed *)

(** C4, amended.  After every sweep the maximal ULP difference is a finite
    double that is not negative.  The average line is printed exactly
    when that maximum is positive: it is then
    [totalDiff / (nTotal - nAgree)] with a positive denominator; when the
    maximum is not positive the sweep is reported as perfect agreement. *)
Theorem average_guarded_by_maximum
    (stdlibFn nativeFn : number -> number) (testPoints : list number) :
  let st := Compare.sweep_loop stdlibFn nativeFn testPoints in
  let r := Compare.runComparison stdlibFn nativeFn testPoints in
  JS.is_finite (Compare.maxUlpDiff st) = true
  /\ JS.le (JS.of_Z 0) (Compare.maxUlpDiff st) = true
  /\ (JS.gt (Compare.maxUlpDiff st) (JS.of_Z 0) = true ->
      0 < Compare.nTotal st - Compare.nAgree st
      /\ Compare.ulpLines r =
         Compare.UlpStatistics (Compare.maxUlpDiff st)
           (JS.div (Compare.totalDiff st)
                   (JS.of_Z (Compare.nTotal st - Compare.nAgree st)))
           (Compare.worstCase st)
           (stdlibFn (Compare.worstCase st))
           (nativeFn (Compare.worstCase st)))
  /\ (JS.gt (Compare.maxUlpDiff st) (JS.of_Z 0) = false ->
      Compare.ulpLines r = Compare.PerfectAgreement).
Proof.
  intros st r.
  destruct (sweep_loop_inv stdlibFn nativeFn testPoints)
    as [Hagree Hfin Hnonneg Hdiv].
  fold st in Hagree, Hfin, Hnonneg, Hdiv.
  split; [exact Hfin |]. split; [exact Hnonneg |].
  unfold r, Compare.runComparison, Compare.report_of. fold st. simpl.
  split; intros H; rewrite H.
  - split; [specialize (Hdiv H); lia | reflexivity].
  - reflexivity.
Qed.

(** C4 as stated fails in three ways.  With the identity against the
    square root at [-1] the second value is NaN: the denominator
    [nTotal - nAgree] is [1], yet no average is computed and perfect
    agreement is reported.  With the square root against itself at [-1]
    no sample is comparable and the percentage [100 * 0 / 0] is NaN.
    With two samples whose distances are [1.5 * 2^1023] each, the sum
    overflows and the average printed is [+Infinity]. *)
Lemma statistics_not_always_finite :
  (let r := Compare.runComparison (fun x => x) JS.Math_sqrt [JS.of_Z (-1)] in
   0 < Compare.totalComparable r - Compare.exactAgreements r
   /\ Compare.ulpLines r = Compare.PerfectAgreement)
  /\ Compare.agreementPercent
       (Compare.runComparison JS.Math_sqrt JS.Math_sqrt [JS.of_Z (-1)])
     = JS.NaN
  /\ (let r := Compare.runComparison
                 (fun _ => smallest_normal) (fun _ => three_halves_2m51)
                 [JS.of_Z 1; JS.of_Z 2] in
      JS.wf smallest_normal = true /\ JS.wf three_halves_2m51 = true
      /\ Compare.ulpLines r =
         Compare.UlpStatistics
           (S754_finite false 6755399441055744 971) JS.Infinity
           (JS.of_Z 1) smallest_normal three_halves_2m51).
Proof. vm_compute. repeat split. Qed.

(** ** C5: infinite values *)

(** C5.  A sample where both values are the same infinity leaves every
    accumulator unchanged, so it is not in [nTotal].  A sample where the
    values are infinities of opposite signs, or one is infinite and the
    other finite, has the distance [+Infinity]; it adds one to [nTotal]
    and changes neither the sum, nor the maximum, nor [nAgree].  For any
    function [exp] that is finite at [709] and [+Infinity] at [710] and
    [711], the sweep of [exp] against itself over [709, 710, 711] tests
    three points and has one comparable sample. *)
Theorem infinite_samples :
  (forall st x s,
     Compare.sweep_sample st x (S754_infinity s) (S754_infinity s) = st)
  /\ (forall st x s,
        Compare.ulpDiff (S754_infinity s) (S754_infinity (negb s))
        = JS.Infinity
        /\ Compare.sweep_sample st x
             (S754_infinity s) (S754_infinity (negb s))
           = {| Compare.maxUlpDiff := Compare.maxUlpDiff st;
                Compare.totalDiff := Compare.totalDiff st;
                Compare.worstCase := Compare.worstCase st;
                Compare.nAgree := Compare.nAgree st;
                Compare.nTotal := Compare.nTotal st + 1 |})
  /\ (forall st x s v,
        JS.is_finite v = true ->
        Compare.ulpDiff (S754_infinity s) v = JS.Infinity
        /\ Compare.ulpDiff v (S754_infinity s) = JS.Infinity
        /\ Compare.sweep_sample st x (S754_infinity s) v
           = {| Compare.maxUlpDiff := Compare.maxUlpDiff st;
                Compare.totalDiff := Compare.totalDiff st;
                Compare.worstCase := Compare.worstCase st;
                Compare.nAgree := Compare.nAgree st;
                Compare.nTotal := Compare.nTotal st + 1 |}
        /\ Compare.sweep_sample st x v (S754_infinity s)
           = {| Compare.maxUlpDiff := Compare.maxUlpDiff st;
                Compare.totalDiff := Compare.totalDiff st;
                Compare.worstCase := Compare.worstCase st;
                Compare.nAgree := Compare.nAgree st;
                Compare.nTotal := Compare.nTotal st + 1 |})
  /\ (forall exp : number -> number,
        JS.is_finite (exp (JS.of_Z 709)) = true ->
        exp (JS.of_Z 710) = JS.Infinity ->
        exp (JS.of_Z 711) = JS.Infinity ->
        let r := Compare.runComparison exp exp
                   [JS.of_Z 709; JS.of_Z 710; JS.of_Z 711] in
        Compare.pointsTested r = 3
        /\ Compare.totalComparable r = 1
        /\ Compare.exactAgreements r = 1
        /\ Compare.ulpLines r = Compare.PerfectAgreement).
Proof.
  split; [| split; [| split]].
  - intros st x s. rewrite sweep_sample_same. reflexivity.
  - intros st x s. split; destruct s; reflexivity.
  - intros st x s v Hv.
    destruct (infinity_ne_finite s v Hv) as (Hsv & Hvs & Hnan).
    repeat split.
    + apply ulpDiff_infinite; auto.
    + apply ulpDiff_infinite; auto. apply orb_true_r.
    + apply sweep_sample_infinite_distance; auto.
    + apply sweep_sample_infinite_distance; auto. apply orb_true_r.
  - intros exp H709 H710 H711 r.
    unfold r, Compare.runComparison, Compare.report_of.
    rewrite sweep_loop_same. unfold finite_results. cbn [filter].
    rewrite H709, H710, H711. repeat split.
Qed.

(** The scenario at a function that is [1] below [710] and [+Infinity]
    from [710] on. *)
Lemma infinite_samples_witness :
  JS.is_finite (saturating (JS.of_Z 709)) = true
  /\ saturating (JS.of_Z 710) = JS.Infinity
  /\ saturating (JS.of_Z 711) = JS.Infinity
  /\ Compare.totalComparable
       (Compare.runComparison saturating saturating
          [JS.of_Z 709; JS.of_Z 710; JS.of_Z 711]) = 1.
Proof.
  split; [reflexivity |]. split; [reflexivity |]. split; [reflexivity |].
  apply (proj2 (proj2 (proj2 infinite_samples)) saturating); reflexivity.
Defined.

(** ** C6: the test of the edge case table *)

(** C6.  For every input [x] and every function [fn] under test, the test
    that [populateEdgeCases] applies to the result of the pair fires
    exactly when [fn(x)] is NaN, [+Infinity], [-Infinity], [+0] or [-0];
    the column of [fn] writes the result [fn(x)] as its cell and raises
    the flag exactly when that test fires; run on the one function [fn],
    the loop yields the result with that flag.  With [sqrt], the input
    [4] gives [2] and no flag, [-0] gives [-0] and the flag, [-1] gives
    NaN and the flag. *)
Theorem edge_pair_special :
  (forall (fn : number -> number) (x : number),
     WebApp.special_result (fn x) = true
     <-> fn x = JS.NaN \/ fn x = JS.Infinity \/ fn x = JS.neg JS.Infinity
         \/ fn x = JS.pos_zero \/ fn x = JS.neg_zero)
  /\ (forall (fn : number -> number) (x : number)
             (cells : list number) (flag : bool),
        WebApp.edge_cell x (cells, flag) fn
        = (cells ++ [fn x], WebApp.special_result (fn x) || flag))
  /\ (forall (fn : number -> number) (x : number),
        WebApp.edge_row [fn] x = ([fn x], WebApp.special_result (fn x)))
  /\ WebApp.edge_row [JS.Math_sqrt] (JS.of_Z 4) = ([JS.of_Z 2], false)
  /\ WebApp.edge_row [JS.Math_sqrt] JS.neg_zero = ([JS.neg_zero], true)
  /\ WebApp.edge_row [JS.Math_sqrt] (JS.of_Z (-1)) = ([JS.NaN], true).
Proof.
  split; [| split; [| split; [| repeat split]]].
  - intros fn x. rewrite special_result_classes.
    destruct (fn x) as [[] | [] | | s m e]; cbn; split;
      try discriminate; try (intros _; tauto);
      intros [H | [H | [H | [H | H]]]]; discriminate H.
  - intros fn x cells flag. unfold WebApp.edge_cell. cbn [fst snd].
    now destruct (WebApp.special_result (fn x)).
  - intros fn x. rewrite edge_row_cells_flag. cbn [map existsb].
    now rewrite orb_false_r.
Qed.

(** ** C7: the counters and the sign of the distance *)

(** C7.  After every sweep [exactAgreements <= totalComparable] and the
    maximal ULP difference is not below [0].  For all doubles [a] and [b],
    [ulpDiff a b] is not below [0]: it is [+0], NaN, [+Infinity] or a
    finite double with a clear sign bit. *)
Theorem sweep_counts_and_sign :
  (forall (stdlibFn nativeFn : number -> number) (testPoints : list number),
     let st := Compare.sweep_loop stdlibFn nativeFn testPoints in
     let r := Compare.runComparison stdlibFn nativeFn testPoints in
     Compare.exactAgreements r <= Compare.totalComparable r
     /\ JS.le (JS.of_Z 0) (Compare.maxUlpDiff st) = true
     /\ JS.lt (Compare.maxUlpDiff st) (JS.of_Z 0) = false)
  /\ (forall a b : number,
        let d := Compare.ulpDiff a b in
        JS.lt d (JS.of_Z 0) = false
        /\ (d = JS.pos_zero \/ d = JS.NaN \/ d = JS.Infinity
            \/ exists m e, d = S754_finite false m e)).
Proof.
  split.
  - intros stdlibFn nativeFn testPoints st r.
    destruct (sweep_loop_inv stdlibFn nativeFn testPoints)
      as [Hagree Hfin Hnonneg Hdiv].
    subst st r.
    split; [simpl; lia |]. split; [exact Hnonneg |].
    revert Hnonneg.
    generalize (Compare.maxUlpDiff
                  (Compare.sweep_loop stdlibFn nativeFn testPoints)).
    intros m. number_cases m; try discriminate; reflexivity.
  - intros a b d. pose proof (ulpDiff_sign_clear a b) as Hd. fold d in Hd.
    destruct d as [s | s | | s m e]; try destruct s; try discriminate Hd;
      (split; [reflexivity |]); eauto 6.
Qed.

(** ** C8: the distance is not symmetric *)

(** C8.  [ulpDiff] is not symmetric, in either copy: [ulpDiff(1, 2)] is
    [2^52] and [ulpDiff(2, 1)] is [2^51]; [ulpDiff(0, 1)] is [2^53] and
    [ulpDiff(1, 0)] is [2^52].  So there are doubles [a] and [b], neither
    NaN, with [a !== b], whose two distances are different numbers. *)
Theorem ulpDiff_not_symmetric :
  Compare.ulpDiff (JS.of_Z 1) (JS.of_Z 2) = JS.of_Z (2 ^ 52)
  /\ Compare.ulpDiff (JS.of_Z 2) (JS.of_Z 1) = JS.of_Z (2 ^ 51)
  /\ Compare.ulpDiff JS.pos_zero (JS.of_Z 1) = JS.of_Z (2 ^ 53)
  /\ Compare.ulpDiff (JS.of_Z 1) JS.pos_zero = JS.of_Z (2 ^ 52)
  /\ exists a b : number,
       JS.wf a = true /\ JS.wf b = true
       /\ JS.is_nan a = false /\ JS.is_nan b = false
       /\ JS.strict_eq a b = false
       /\ JS.strict_eq (Compare.ulpDiff a b) (Compare.ulpDiff b a) = false
       /\ JS.strict_eq (WebApp.ulpDiff a b) (WebApp.ulpDiff b a) = false.
Proof.
  repeat (split; [vm_compute; reflexivity |]).
  exists (JS.of_Z 1), (JS.of_Z 2). vm_compute. repeat split.
Qed.

(** ** C9: the two copies of [ulpDiff] *)

(** C9.  For all doubles [a] and [b], [ulpDiff] of [lib/compare.js] and
    [ulpDiff] of [web/app.js] return the same double: the same NaN, the
    same infinity, the same zero with the same sign, or the same finite
    value. *)
Theorem ulpDiff_cli_web_agree (a b : number) :
  JS.wf a = true -> JS.wf b = true ->
  Compare.ulpDiff a b = WebApp.ulpDiff a b.
Proof.
  intros Ha Hb. unfold Compare.ulpDiff, WebApp.ulpDiff.
  rewrite web_isnan_is_nan, web_isnan_is_nan, web_isinfinite_is_inf,
    web_isinfinite_is_inf, !isnan_is_nan, !isinfinite_is_inf.
  destruct (JS.strict_eq a b) eqn:Hab; [reflexivity |].
  destruct (JS.is_nan a || JS.is_nan b); [reflexivity |].
  destruct (JS.is_inf a || JS.is_inf b); [reflexivity |].
  rewrite strict_eq_zero.
  destruct (JS.is_zero a) eqn:Hz.
  - rewrite web_abs_abs; [reflexivity |].
    intros ->. destruct a as [sa | | |]; try discriminate Hz.
    destruct sa; discriminate Hab.
  - rewrite (web_abs_abs (JS.sub a b)) by now apply sub_not_neg_zero.
    rewrite (web_abs_abs a); [reflexivity |].
    intros ->. discriminate Hz.
Qed.

(** The two copies at [a = -3] and [b = 5]. *)
Lemma ulpDiff_cli_web_agree_witness :
  JS.wf (JS.of_Z (-3)) = true /\ JS.wf (JS.of_Z 5) = true
  /\ Compare.ulpDiff (JS.of_Z (-3)) (JS.of_Z 5)
     = WebApp.ulpDiff (JS.of_Z (-3)) (JS.of_Z 5).
Proof.
  split; [reflexivity |]. split; [reflexivity |].
  apply (ulpDiff_cli_web_agree (JS.of_Z (-3)) (JS.of_Z 5)); reflexivity.
Defined.

(** ** C10: a subnormal first argument *)

(** C10.  With [a = 5e-324] and [b = 1], both finite, [a] not a zero
    and [a !== b], the product [|a| * eps] underflows to [+0] and
    [ulpDiff a b] is [+Infinity].  A sample with these two values adds
    one to [nTotal] and changes neither the sum, nor the maximum, nor the
    worst case, nor [nAgree].  The decimal [5e-324] lies strictly between
    [2^-1075] and [3 * 2^-1075], so it denotes [2^-1074]. *)
Theorem subnormal_infinite_distance :
  JS.wf min_subnormal = true
  /\ JS.is_finite min_subnormal = true
  /\ JS.is_finite (JS.of_Z 1) = true
  /\ JS.strict_eq min_subnormal (JS.of_Z 0) = false
  /\ JS.strict_eq min_subnormal (JS.of_Z 1) = false
  /\ Policy.decimal_above 5 324 (S754_finite false 1 (-1075)) = true
  /\ Policy.decimal_below 5 324 (S754_finite false 3 (-1075)) = true
  /\ JS.mul (StdlibJS.abs min_subnormal) StdlibJS.FLOAT64_EPS = JS.pos_zero
  /\ Compare.ulpDiff min_subnormal (JS.of_Z 1) = JS.Infinity
  /\ (forall st x,
        Compare.sweep_sample st x min_subnormal (JS.of_Z 1)
        = {| Compare.maxUlpDiff := Compare.maxUlpDiff st;
             Compare.totalDiff := Compare.totalDiff st;
             Compare.worstCase := Compare.worstCase st;
             Compare.nAgree := Compare.nAgree st;
             Compare.nTotal := Compare.nTotal st + 1 |}).
Proof.
  repeat (split; [vm_compute; reflexivity |]).
  intros st x. reflexivity.
Qed.

(** * Further properties of the code *)

(** ** The order of the doubles

    Every double but NaN has a key in [Z * Z * Z]; the comparison of two
    doubles is the lexicographic comparison of their keys. *)



Section Order.

Lemma finite_compare_lt (s1 s2 : bool) (m1 m2 : positive) (e1 e2 : Z) :
  SFcompare (S754_finite s1 m1 e1) (S754_finite s2 m2 e2) = Some Lt <->
  key_lt (order_key (S754_finite s1 m1 e1)) (order_key (S754_finite s2 m2 e2)).
Proof.
  unfold SFcompare, order_key, key_lt.
  change (Pos.compare_cont Eq m1 m2) with (Pos.compare m1 m2).
  destruct s1, s2;
    destruct (Z.compare_spec e1 e2) as [He | He | He];
    destruct (Pos.compare_spec m1 m2) as [Hm | Hm | Hm];
    cbn [CompOpp]; split; intros H; try discriminate; try reflexivity;
    try lia.
Qed.

Lemma lt_key (x y : number) :
  JS.lt x y = true <->
  JS.is_nan x = false /\ JS.is_nan y = false
  /\ key_lt (order_key x) (order_key y).
Proof.
  unfold JS.lt, SFltb.
  destruct x as [sx | sx | | sx mx ex], y as [sy | sy | | sy my ey];
    try (pose proof (finite_compare_lt sx sy mx my ex ey) as Hf;
         destruct (SFcompare (S754_finite sx mx ex) (S754_finite sy my ey))
           as [[] |]; split;
         [ discriminate | intros (_ & _ & H); apply Hf in H; discriminate
         | intros _; repeat split; apply Hf; reflexivity | reflexivity
         | discriminate | intros (_ & _ & H); apply Hf in H; discriminate
         | discriminate | intros (_ & _ & H); apply Hf in H; discriminate ]);
    try destruct sx; try destruct sy; simpl;
    split; try discriminate; try (intros (? & ? & ?); try discriminate; lia);
    intros _; repeat split; lia.
Qed.

End Order.

Section OrderFacts.

Lemma le_key (x y : number) :
  JS.le x y = true <->
  JS.is_nan x = false /\ JS.is_nan y = false
  /\ (key_lt (order_key x) (order_key y) \/ order_key x = order_key y).
Proof.
  unfold JS.le, SFleb.
  destruct x as [sx | sx | | sx mx ex], y as [sy | sy | | sy my ey];
    try (pose proof (finite_compare_lt sx sy mx my ex ey) as Hf;
         unfold SFcompare, order_key, key_lt in *;
         change (Pos.compare_cont Eq mx my) with (Pos.compare mx my) in *;
         destruct sx, sy;
         destruct (Z.compare_spec ex ey) as [He | He | He];
         destruct (Pos.compare_spec mx my) as [Hm | Hm | Hm];
         cbn [CompOpp]; split; intros H; try discriminate; try reflexivity;
         repeat split; try lia;
         try (destruct H as (_ & _ & [H | H]); [lia | inversion H; lia]);
         try (right; subst; reflexivity));
    try destruct sx; try destruct sy; simpl;
    split; try discriminate;
    try (intros (? & ? & [? | ?]); try discriminate; lia);
    intros _; repeat split; try lia; try (right; reflexivity).
Qed.

Lemma eq_key (x y : number) :
  JS.strict_eq x y = true <->
  JS.is_nan x = false /\ JS.is_nan y = false /\ order_key x = order_key y.
Proof.
  rewrite strict_eq_ieee_equal.
  destruct x as [sx | sx | | sx mx ex], y as [sy | sy | | sy my ey];
    try destruct sx; try destruct sy; simpl;
    try (split; [discriminate | intros (? & ? & ?); discriminate]);
    try (split; intros _; repeat split; reflexivity);
    rewrite ?andb_true_iff, ?Pos.eqb_eq, ?Z.eqb_eq;
    (split;
     [ intros (Hm & He); try destruct Hm; subst; repeat split
     | intros (_ & _ & H); inversion H; repeat split; lia ]).
Qed.

End OrderFacts.

Section OrderLaws.

Lemma key_total (k1 k2 : Z * Z * Z) :
  key_lt k1 k2 \/ k1 = k2 \/ key_lt k2 k1.
Proof.
  destruct k1 as [[a1 b1] c1], k2 as [[a2 b2] c2]. unfold key_lt.
  destruct (Z.lt_trichotomy a1 a2) as [H | [H | H]]; [lia | | lia].
  destruct (Z.lt_trichotomy b1 b2) as [H' | [H' | H']]; [lia | | lia].
  destruct (Z.lt_trichotomy c1 c2) as [H'' | [H'' | H'']]; [lia | | lia].
  right; left. congruence.
Qed.

Lemma key_lt_trans (k1 k2 k3 : Z * Z * Z) :
  key_lt k1 k2 -> key_lt k2 k3 -> key_lt k1 k3.
Proof.
  destruct k1 as [[a1 b1] c1], k2 as [[a2 b2] c2], k3 as [[a3 b3] c3].
  unfold key_lt. lia.
Qed.

Lemma key_lt_irrefl (k : Z * Z * Z) : ~ key_lt k k.
Proof. destruct k as [[a b] c]. unfold key_lt. lia. Qed.

(** [x <= x] for every double but NaN. *)
Lemma le_refl (x : number) : JS.is_nan x = false -> JS.le x x = true.
Proof. intros H. apply le_key. auto. Qed.

(** [x <= y] and [y < z] give [x <= z]. *)
Lemma le_lt_le (x y z : number) :
  JS.le x y = true -> JS.lt y z = true -> JS.le x z = true.
Proof.
  rewrite !le_key, lt_key. intros (Hx & Hy & Hxy) (_ & Hz & Hyz).
  repeat split; try assumption. left.
  destruct Hxy as [Hxy | Hxy]; [eapply key_lt_trans; eassumption |].
  now rewrite Hxy.
Qed.

Lemma le_trans (x y z : number) :
  JS.le x y = true -> JS.le y z = true -> JS.le x z = true.
Proof.
  rewrite !le_key. intros (Hx & Hy & Hxy) (_ & Hz & Hyz).
  repeat split; try assumption.
  destruct Hxy as [Hxy | Hxy], Hyz as [Hyz | Hyz].
  - left. eapply key_lt_trans; eassumption.
  - left. now rewrite <- Hyz.
  - left. now rewrite Hxy.
  - right. congruence.
Qed.

(** When [x < y] fails and neither is NaN, [y <= x]. *)
Lemma not_lt_le (x y : number) :
  JS.is_nan x = false -> JS.is_nan y = false ->
  JS.lt x y = false -> JS.le y x = true.
Proof.
  intros Hx Hy Hlt. apply le_key. repeat split; try assumption.
  destruct (key_total (order_key x) (order_key y)) as [H | [H | H]]; auto.
  assert (JS.lt x y = true) by (apply lt_key; auto). congruence.
Qed.

Lemma lt_le (x y : number) : JS.lt x y = true -> JS.le x y = true.
Proof. rewrite lt_key, le_key. intuition. Qed.

End OrderLaws.

Section WorstCase.

Import Compare.

Variables stdlibFn nativeFn : number -> number.

Lemma finite_not_nan (x : number) : JS.is_finite x = true -> JS.is_nan x = false.
Proof. destruct x; simpl; auto; discriminate. Qed.

Lemma ulpDiff_equal (a b : number) :
  JS.strict_eq a b = true -> ulpDiff a b = JS.pos_zero.
Proof. intros H. unfold ulpDiff. now rewrite H. Qed.


Lemma worst_inv_step (seen : list number) (st : sweep) (x : number) :
  sweep_inv st -> worst_inv stdlibFn nativeFn seen st ->
  worst_inv stdlibFn nativeFn (seen ++ [x]) (sweep_step stdlibFn nativeFn st x).
Proof.
  intros [Hagree Hfin Hnonneg Hdiv] [Hbound Hatt].
  assert (Hkeep : forall st', maxUlpDiff st' = maxUlpDiff st ->
            worstCase st' = worstCase st ->
            JS.le (ulpDiff (stdlibFn x) (nativeFn x)) (maxUlpDiff st) = true
            \/ JS.is_finite (ulpDiff (stdlibFn x) (nativeFn x)) = false ->
            worst_inv stdlibFn nativeFn (seen ++ [x]) st').
  { intros st' Hm Hw Hx. split; rewrite Hm; try rewrite Hw.
    - intros y Hy Hfy. apply in_app_or in Hy. destruct Hy as [Hy | [<- | []]].
      + now apply Hbound.
      + destruct Hx as [Hx | Hx]; [exact Hx | congruence].
    - intros H. destruct (Hatt H) as [Hin Heq]. split; [| exact Heq].
      apply in_or_app. now left. }
  unfold sweep_step, sweep_sample.
  destruct (StdlibJS.isnan (stdlibFn x) && StdlibJS.isnan (nativeFn x)) eqn:Hnan.
  { apply Hkeep; try reflexivity. right.
    apply andb_prop in Hnan. destruct Hnan as [Hn _].
    rewrite isnan_is_nan in Hn. destruct (stdlibFn x); try discriminate Hn.
    reflexivity. }
  destruct (StdlibJS.isinfinite (stdlibFn x) && StdlibJS.isinfinite (nativeFn x)
            && JS.strict_eq (stdlibFn x) (nativeFn x)) eqn:Hinf.
  { apply Hkeep; try reflexivity. left.
    apply andb_prop in Hinf. destruct Hinf as [_ Heq].
    rewrite (ulpDiff_equal _ _ Heq). exact Hnonneg. }
  destruct (JS.strict_eq (stdlibFn x) (nativeFn x)) eqn:Heq.
  { apply Hkeep; try reflexivity. left.
    rewrite (ulpDiff_equal _ _ Heq). exact Hnonneg. }
  destruct (negb (StdlibJS.isnan (ulpDiff (stdlibFn x) (nativeFn x)))
            && negb (StdlibJS.isinfinite (ulpDiff (stdlibFn x) (nativeFn x))))
    eqn:Hd.
  2:{ apply Hkeep; try reflexivity. right.
      rewrite isnan_is_nan, isinfinite_is_inf in Hd.
      destruct (ulpDiff (stdlibFn x) (nativeFn x)); simpl in *;
        try discriminate; reflexivity. }
  apply not_nan_not_inf_finite in Hd.
  unfold accumulate. cbn [maxUlpDiff count_total].
  destruct (JS.gt (ulpDiff (stdlibFn x) (nativeFn x)) (maxUlpDiff st)) eqn:Hgt.
  - split; cbn [maxUlpDiff worstCase].
    + intros y Hy Hfy. apply in_app_or in Hy. destruct Hy as [Hy | [<- | []]].
      * eapply le_lt_le; [apply Hbound; assumption | exact Hgt].
      * apply le_refl. now apply finite_not_nan.
    + intros _. split; [apply in_or_app; right; now left | reflexivity].
  - apply Hkeep; try reflexivity. left.
    apply not_lt_le; try (now apply finite_not_nan). exact Hgt.
Qed.

Lemma worst_inv_fold (testPoints seen : list number) (st : sweep) :
  sweep_inv st -> worst_inv stdlibFn nativeFn seen st ->
  worst_inv stdlibFn nativeFn (seen ++ testPoints)
    (fold_left (sweep_step stdlibFn nativeFn) testPoints st).
Proof.
  revert seen st. induction testPoints as [| x rest IH]; intros seen st Hs Hw.
  - now rewrite app_nil_r.
  - simpl. replace (seen ++ x :: rest) with ((seen ++ [x]) ++ rest)
      by now rewrite <- app_assoc.
    apply IH.
    + unfold sweep_step. now apply sweep_inv_sample.
    + now apply worst_inv_step.
Qed.

End WorstCase.

(** X1.  [maxUlpDiff] bounds the distance at every test point where the
    distance is finite; when it is positive, [worstCase] is one of the
    test points and the distance there is [maxUlpDiff]. *)
Theorem worst_case_is_the_maximum
    (stdlibFn nativeFn : number -> number) (testPoints : list number) :
  let st := Compare.sweep_loop stdlibFn nativeFn testPoints in
  (forall x, In x testPoints ->
     JS.is_finite (Compare.ulpDiff (stdlibFn x) (nativeFn x)) = true ->
     JS.le (Compare.ulpDiff (stdlibFn x) (nativeFn x))
           (Compare.maxUlpDiff st) = true)
  /\ (JS.gt (Compare.maxUlpDiff st) (JS.of_Z 0) = true ->
      In (Compare.worstCase st) testPoints
      /\ Compare.ulpDiff (stdlibFn (Compare.worstCase st))
                         (nativeFn (Compare.worstCase st))
         = Compare.maxUlpDiff st).
Proof.
  intros st.
  destruct (worst_inv_fold stdlibFn nativeFn testPoints [] Compare.sweep_init)
    as [Hbound Hatt].
  - apply sweep_inv_init.
  - split; [intros x [] | discriminate].
  - split; assumption.
Qed.


Section Counters.

Import Compare.

Variables stdlibFn nativeFn : number -> number.

Lemma strict_eq_finite_not_inf (v w : number) :
  JS.strict_eq v w = true ->
  JS.is_finite v = negb (JS.is_inf v && JS.is_inf w).
Proof.
  number_cases v; number_cases w; try discriminate; reflexivity.
Qed.

Lemma sweep_step_counters (st : sweep) (x : number) :
  nTotal (sweep_step stdlibFn nativeFn st x)
  = nTotal st + (if comparable stdlibFn nativeFn x then 1 else 0)
  /\ nAgree (sweep_step stdlibFn nativeFn st x)
     = nAgree st + (if agreeing stdlibFn nativeFn x then 1 else 0).
Proof.
  unfold sweep_step, sweep_sample, comparable, agreeing.
  rewrite !isnan_is_nan, !isinfinite_is_inf.
  destruct (JS.is_nan (stdlibFn x) && JS.is_nan (nativeFn x)) eqn:Hnan.
  { apply andb_prop in Hnan. destruct Hnan as [Hn _].
    destruct (stdlibFn x); try discriminate Hn. simpl. split; lia. }
  destruct (JS.strict_eq (stdlibFn x) (nativeFn x)) eqn:Heq.
  - rewrite (strict_eq_finite_not_inf _ _ Heq), andb_true_r.
    destruct (JS.is_inf (stdlibFn x) && JS.is_inf (nativeFn x));
      simpl; split; lia.
  - rewrite andb_false_r. simpl.
    destruct (negb (JS.is_nan (ulpDiff (stdlibFn x) (nativeFn x)))
              && negb (JS.is_inf (ulpDiff (stdlibFn x) (nativeFn x))));
      [unfold accumulate;
       destruct (JS.gt (ulpDiff (stdlibFn x) (nativeFn x))
                       (maxUlpDiff (count_total st))) |];
      simpl; split; lia.
Qed.

Lemma fold_sweep_counters (testPoints : list number) (st : sweep) :
  nTotal (fold_left (sweep_step stdlibFn nativeFn) testPoints st)
  = nTotal st
    + Z.of_nat (length (filter (comparable stdlibFn nativeFn) testPoints))
  /\ nAgree (fold_left (sweep_step stdlibFn nativeFn) testPoints st)
     = nAgree st
       + Z.of_nat (length (filter (agreeing stdlibFn nativeFn) testPoints)).
Proof.
  revert st. induction testPoints as [| x rest IH]; intros st; simpl.
  - split; lia.
  - destruct (IH (sweep_step stdlibFn nativeFn st x)) as [Ht Ha].
    destruct (sweep_step_counters st x) as [Ht' Ha'].
    rewrite Ht, Ha, Ht', Ha'.
    destruct (comparable stdlibFn nativeFn x),
             (agreeing stdlibFn nativeFn x); simpl length; split; lia.
Qed.

End Counters.

(** X2.  [totalComparable] is the number of test points that are neither
    two NaN nor two equal infinities; [exactAgreements] is the number of
    test points with two equal finite values.  So both are at most
    [pointsTested], and over two sequences run one after the other both
    are the sums of the counts of the parts. *)
Theorem counters_closed_form
    (stdlibFn nativeFn : number -> number) (testPoints more : list number) :
  let r := Compare.runComparison stdlibFn nativeFn testPoints in
  Compare.totalComparable r
  = Z.of_nat (length (filter (comparable stdlibFn nativeFn) testPoints))
  /\ Compare.exactAgreements r
     = Z.of_nat (length (filter (agreeing stdlibFn nativeFn) testPoints))
  /\ Compare.totalComparable r <= Compare.pointsTested r
  /\ Compare.totalComparable
       (Compare.runComparison stdlibFn nativeFn (testPoints ++ more))
     = Compare.totalComparable r
       + Compare.totalComparable
           (Compare.runComparison stdlibFn nativeFn more)
  /\ Compare.exactAgreements
       (Compare.runComparison stdlibFn nativeFn (testPoints ++ more))
     = Compare.exactAgreements r
       + Compare.exactAgreements
           (Compare.runComparison stdlibFn nativeFn more).
Proof.
  intros r. subst r. unfold Compare.runComparison, Compare.report_of.
  cbn [Compare.totalComparable Compare.exactAgreements Compare.pointsTested].
  unfold Compare.sweep_loop.
  destruct (fold_sweep_counters stdlibFn nativeFn testPoints Compare.sweep_init)
    as [Ht Ha].
  destruct (fold_sweep_counters stdlibFn nativeFn more Compare.sweep_init)
    as [Ht' Ha'].
  destruct (fold_sweep_counters stdlibFn nativeFn (testPoints ++ more)
              Compare.sweep_init) as [Ht'' Ha''].
  rewrite Ht, Ha, Ht', Ha', Ht'', Ha''. simpl.
  rewrite !filter_app, !length_app.
  pose proof (filter_length_le (comparable stdlibFn nativeFn) testPoints).
  repeat split; lia.
Qed.

Section WebDistance.

Lemma web_abs_cases (x : number) :
  WebApp.abs x = JS.neg_zero \/ JS.sign_clear (WebApp.abs x) = true.
Proof. number_cases x; auto. Qed.

Lemma div_neg_zero (y : number) :
  JS.sign_clear y = true ->
  JS.div JS.neg_zero y = JS.NaN \/ JS.div JS.neg_zero y = JS.neg_zero.
Proof. number_cases y; try discriminate; auto. Qed.

Lemma sign_clear_nonneg (d : number) :
  JS.sign_clear d = true -> d = JS.NaN \/ JS.le (JS.of_Z 0) d = true.
Proof. number_cases d; try discriminate; auto. Qed.

Lemma web_quotient_nonneg (x y : number) :
  JS.sign_clear y = true ->
  JS.div (WebApp.abs x) y = JS.NaN
  \/ JS.le (JS.of_Z 0) (JS.div (WebApp.abs x) y) = true.
Proof.
  intros Hy. destruct (web_abs_cases x) as [Hx | Hx].
  - rewrite Hx. destruct (div_neg_zero y Hy) as [H | H]; rewrite H; auto.
  - apply sign_clear_nonneg. now apply div_sign_clear.
Qed.

(** The distance of [web/app.js] is NaN or not below zero. *)
Lemma web_ulpDiff_nonneg (a b : number) :
  WebApp.ulpDiff a b = JS.NaN
  \/ JS.le (JS.of_Z 0) (WebApp.ulpDiff a b) = true.
Proof.
  unfold WebApp.ulpDiff.
  rewrite !web_isnan_is_nan, !web_isinfinite_is_inf, strict_eq_zero.
  destruct (JS.strict_eq a b); [now right |].
  destruct (JS.is_nan a || JS.is_nan b) eqn:Hnan; [now left |].
  destruct (JS.is_inf a || JS.is_inf b) eqn:Hinf; [now right |].
  destruct (JS.is_zero a) eqn:Hz.
  - apply web_quotient_nonneg. reflexivity.
  - apply web_quotient_nonneg.
    destruct a as [sa | sa | | sa ma ea]; try discriminate.
    apply mul_sign_clear; [destruct sa |]; reflexivity.
Qed.

End WebDistance.

Section WebAnalysis.

Import WebApp.

Variables refFn nativeFn : number -> number.


Lemma analysis_inv_init : analysis_inv [] analysis_init.
Proof.
  split; simpl; try reflexivity; try lia.
  intros H. discriminate H.
Qed.

Lemma analysis_inv_agree (seen : list number) (st : analysis) (x : number) :
  analysis_inv seen st -> analysis_inv (seen ++ [x]) (analysis_agree st x).
Proof.
  intros [Habs Hent Hcnt Hfin Hnonneg Hdiv].
  split; cbn [analysis_agree ulps nAgree nDiff maxUlp]; try assumption.
  - rewrite map_app, Habs. reflexivity.
  - intros e He. apply in_app_or in He. destruct He as [He | [<- | []]].
    + now apply Hent.
    + simpl. repeat split. exact Hnonneg.
  - rewrite length_app. simpl. lia.
Qed.

Lemma analysis_inv_sample (seen : list number) (st : analysis)
    (x v w : number) :
  analysis_inv seen st ->
  analysis_inv (seen ++ [x]) (analysis_sample st x v w).
Proof.
  intros Hinv. unfold analysis_sample.
  destruct (isnan v && isnan w); [now apply analysis_inv_agree |].
  destruct (JS.strict_eq v w); [now apply analysis_inv_agree |].
  destruct Hinv as [Habs Hent Hcnt Hfin Hnonneg Hdiv].
  destruct (negb (isnan (ulpDiff v w)) && negb (isinfinite (ulpDiff v w)))
    eqn:Hd.
  - assert (Hdfin : JS.is_finite (ulpDiff v w) = true).
    { rewrite web_isnan_is_nan, web_isinfinite_is_inf in Hd.
      destruct (ulpDiff v w); simpl in *; auto. }
    assert (Hdpos : JS.le (JS.of_Z 0) (ulpDiff v w) = true).
    { destruct (web_ulpDiff_nonneg v w) as [H | H]; [| exact H].
      rewrite H in Hdfin. discriminate. }
    pose proof (finite_not_nan _ Hdfin) as Hdnan.
    pose proof (finite_not_nan _ Hfin) as Hmnan.
    split; cbn [ulps nAgree nDiff maxUlp].
    + rewrite map_app, Habs. reflexivity.
    + intros e He. apply in_app_or in He.
      destruct (JS.gt (ulpDiff v w) (maxUlp st)) eqn:Hgt;
        destruct He as [He | [<- | []]]; simpl.
      * destruct (Hent e He) as (H1 & H2 & H3). repeat split; try assumption.
        eapply le_lt_le; eassumption.
      * repeat split; try assumption. now apply le_refl.
      * now apply Hent.
      * repeat split; try assumption. now apply not_lt_le.
    + rewrite length_app. simpl. lia.
    + destruct (JS.gt (ulpDiff v w) (maxUlp st)); assumption.
    + destruct (JS.gt (ulpDiff v w) (maxUlp st)); assumption.
    + intros _. lia.
  - split; cbn [ulps nAgree nDiff maxUlp]; try assumption.
    + rewrite map_app, Habs. reflexivity.
    + intros e He. apply in_app_or in He. destruct He as [He | [<- | []]].
      * now apply Hent.
      * simpl. repeat split. exact Hnonneg.
    + rewrite length_app. simpl. lia.
Qed.

Lemma analysis_inv_fold (x seen : list number) (st : analysis) :
  analysis_inv seen st ->
  analysis_inv (seen ++ x) (fold_left (analysis_step refFn nativeFn) x st).
Proof.
  revert seen st. induction x as [| x0 rest IH]; intros seen st Hinv.
  - now rewrite app_nil_r.
  - simpl. replace (seen ++ x0 :: rest) with ((seen ++ [x0]) ++ rest)
      by now rewrite <- app_assoc.
    apply IH. unfold analysis_step. now apply analysis_inv_sample.
Qed.

Lemma analysis_loop_inv (x : list number) :
  analysis_inv x (analysis_loop refFn nativeFn x).
Proof. apply (analysis_inv_fold x [] analysis_init), analysis_inv_init. Qed.

End WebAnalysis.

Section Linspace.

Import WebApp.

Lemma linspace_length (start stop : number) (n : nat) :
  length (linspace start stop n) = n.
Proof.
  unfold linspace. destruct (Nat.eqb_spec n 1) as [-> | Hn].
  - reflexivity.
  - now rewrite length_map, length_seq.
Qed.

Lemma add_zero_product (start step : number) :
  JS.is_finite step = true -> JS.is_nan start = false ->
  JS.strict_eq (JS.add start (JS.mul step (JS.of_Z 0))) start = true.
Proof.
  intros Hstep Hstart.
  number_cases step; try discriminate Hstep;
    number_cases start; try discriminate Hstart; try reflexivity;
    apply strict_eq_refl; reflexivity.
Qed.

End Linspace.

(** X3.  [linspace(start, stop, n)] has [n] cells; for [n = 1] it is
    [[start]] and for [n = 0] it is empty; the cell [i] is
    [start + step * i] with [step = (stop - start) / (n - 1)]; when the
    step is finite and [start] is not NaN, the first cell is [start].  The
    last cell is not always [stop]: [linspace(0, 1, 50)] ends below [1]. *)
Theorem linspace_cells (start stop : number) (n : nat) :
  length (WebApp.linspace start stop n) = n
  /\ WebApp.linspace start stop 1 = [start]
  /\ WebApp.linspace start stop 0 = []
  /\ (n <> 1%nat ->
      let step := JS.div (JS.sub stop start) (JS.of_Z (Z.of_nat n - 1)) in
      (forall i, (i < n)%nat ->
         nth i (WebApp.linspace start stop n) JS.NaN
         = JS.add start (JS.mul step (JS.of_Z (Z.of_nat i))))
      /\ (JS.is_finite step = true -> JS.is_nan start = false ->
          (0 < n)%nat ->
          JS.strict_eq (nth 0 (WebApp.linspace start stop n) JS.NaN) start
          = true))
  /\ JS.lt (nth 49 (WebApp.linspace (JS.of_Z 0) (JS.of_Z 1) 50) JS.NaN)
           (JS.of_Z 1) = true.
Proof.
  split; [apply linspace_length |].
  split; [reflexivity |]. split; [reflexivity |].
  split; [| vm_compute; reflexivity].
  intros Hn step.
  assert (Hnth : forall i, (i < n)%nat ->
            nth i (WebApp.linspace start stop n) JS.NaN
            = JS.add start (JS.mul step (JS.of_Z (Z.of_nat i)))).
  { intros i Hi. unfold WebApp.linspace.
    destruct (Nat.eqb_spec n 1) as [E | _]; [contradiction |].
    fold step.
    rewrite (nth_indep _ JS.NaN
               (JS.add start (JS.mul step (JS.of_Z (Z.of_nat n)))))
      by now rewrite length_map, length_seq.
    rewrite (map_nth (fun i => JS.add start (JS.mul step (JS.of_Z (Z.of_nat i))))
               (seq 0 n) n i).
    now rewrite seq_nth. }
  split; [exact Hnth |].
  intros Hstep Hstart Hpos. rewrite (Hnth 0%nat Hpos).
  now apply add_zero_product.
Qed.

(** X4.  What [runAccuracyAnalysis] hands to the page: one plotted entry
    per cell of [linspace(xmin, xmax, n)], in order; every plotted ULP
    value is finite, not below zero and at most the maximum shown, which
    is finite; and a positive maximum always comes with an average. *)
Theorem analysis_statistics
    (refFn nativeFn : number -> number) (xmin xmax : number) (n : nat) :
  let s := WebApp.runAccuracyAnalysis refFn nativeFn xmin xmax n in
  map fst (WebApp.plotted s) = WebApp.linspace xmin xmax n
  /\ length (WebApp.plotted s) = n
  /\ (forall e, In e (WebApp.plotted s) ->
        JS.is_finite (snd e) = true
        /\ JS.le (JS.of_Z 0) (snd e) = true
        /\ JS.le (snd e) (WebApp.statMaxUlp s) = true)
  /\ JS.is_finite (WebApp.statMaxUlp s) = true
  /\ JS.le (JS.of_Z 0) (WebApp.statMaxUlp s) = true
  /\ (JS.gt (WebApp.statMaxUlp s) (JS.of_Z 0) = true ->
      exists avg, WebApp.statAvgUlp s = Some avg).
Proof.
  intros s. subst s. unfold WebApp.runAccuracyAnalysis.
  cbn [WebApp.plotted WebApp.statMaxUlp WebApp.statAvgUlp].
  destruct (analysis_loop_inv refFn nativeFn (WebApp.linspace xmin xmax n))
    as [Habs Hent Hcnt Hfin Hnonneg Hdiv].
  split; [exact Habs |].
  split; [rewrite <- (length_map fst), Habs; apply linspace_length |].
  split; [exact Hent |]. split; [exact Hfin |]. split; [exact Hnonneg |].
  intros H. specialize (Hdiv H).
  destruct (Z.ltb_spec 0 (WebApp.nDiff
              (WebApp.analysis_loop refFn nativeFn
                 (WebApp.linspace xmin xmax n)))) as [_ | Hle]; [eauto | lia].
Qed.

Section WebAndCli.

Variables refFn nativeFn : number -> number.

(** The two copies of [ulpDiff] on well-formed doubles. *)
Lemma web_ulpDiff_eq (a b : number) :
  JS.wf a = true -> JS.wf b = true ->
  WebApp.ulpDiff a b = Compare.ulpDiff a b.
Proof.
  intros Ha Hb. unfold Compare.ulpDiff, WebApp.ulpDiff.
  rewrite !web_isnan_is_nan, !web_isinfinite_is_inf,
    ?isnan_is_nan, ?isinfinite_is_inf.
  destruct (JS.strict_eq a b) eqn:Hab; [reflexivity |].
  destruct (JS.is_nan a || JS.is_nan b); [reflexivity |].
  destruct (JS.is_inf a || JS.is_inf b); [reflexivity |].
  rewrite strict_eq_zero.
  destruct (JS.is_zero a) eqn:Hz.
  - rewrite web_abs_abs; [reflexivity |].
    intros ->. destruct a as [sa | | |]; try discriminate Hz.
    destruct sa; discriminate Hab.
  - rewrite (web_abs_abs (JS.sub a b)) by now apply sub_not_neg_zero.
    rewrite (web_abs_abs a); [reflexivity |].
    intros ->. discriminate Hz.
Qed.


Lemma loops_related_step (seen : list number)
    (w : WebApp.analysis) (c : Compare.sweep) (x : number) :
  JS.wf (refFn x) = true -> JS.wf (nativeFn x) = true ->
  loops_related seen w c ->
  loops_related (seen ++ [x])
    (WebApp.analysis_step refFn nativeFn w x)
    (Compare.sweep_step refFn nativeFn c x).
Proof.
  intros Hr Hn [Hmax Htot Hagr Hdiff].
  unfold WebApp.analysis_step, WebApp.analysis_sample,
    Compare.sweep_step, Compare.sweep_sample.
  rewrite (web_ulpDiff_eq _ _ Hr Hn).
  change WebApp.isnan with StdlibJS.isnan.
  change WebApp.isinfinite with StdlibJS.isinfinite.
  destruct (StdlibJS.isnan (refFn x) && StdlibJS.isnan (nativeFn x)).
  { split; simpl; try assumption; rewrite ?length_app; simpl; lia. }
  destruct (JS.strict_eq (refFn x) (nativeFn x)).
  { rewrite andb_true_r.
    destruct (StdlibJS.isinfinite (refFn x)
              && StdlibJS.isinfinite (nativeFn x));
      split; simpl; try assumption; rewrite ?length_app; simpl; lia. }
  rewrite andb_false_r.
  destruct (negb (StdlibJS.isnan (Compare.ulpDiff (refFn x) (nativeFn x)))
            && negb (StdlibJS.isinfinite
                       (Compare.ulpDiff (refFn x) (nativeFn x)))).
  - unfold Compare.accumulate. cbn [Compare.maxUlpDiff Compare.count_total
      Compare.totalDiff Compare.nAgree Compare.nTotal Compare.worstCase].
    rewrite <- Hmax, <- Htot.
    destruct (JS.gt (Compare.ulpDiff (refFn x) (nativeFn x)) (WebApp.maxUlp w));
      split; simpl; try reflexivity; rewrite ?length_app; simpl; lia.
  - split; simpl; try assumption; rewrite ?length_app; simpl; lia.
Qed.

Lemma loops_related_fold (x seen : list number)
    (w : WebApp.analysis) (c : Compare.sweep) :
  Forall (fun p => JS.wf (refFn p) = true /\ JS.wf (nativeFn p) = true) x ->
  loops_related seen w c ->
  loops_related (seen ++ x)
    (fold_left (WebApp.analysis_step refFn nativeFn) x w)
    (fold_left (Compare.sweep_step refFn nativeFn) x c).
Proof.
  revert seen w c. induction x as [| x0 rest IH]; intros seen w c Hwf Hrel.
  - now rewrite app_nil_r.
  - inversion Hwf as [| ? ? [Hr Hn] Hrest]; subst. simpl.
    replace (seen ++ x0 :: rest) with ((seen ++ [x0]) ++ rest)
      by now rewrite <- app_assoc.
    apply IH; [assumption |]. now apply loops_related_step.
Qed.

End WebAndCli.

(** X5.  Over the same points, with functions that return doubles, the loop
    of [runAccuracyAnalysis] and the loop of [runComparison] end with the
    same maximum and the same sum of distances.  The web loop counts as
    agreements the agreements of the command line loop and every sample
    that the latter skips; its [nDiff] is at most [nTotal - nAgree]. *)
Theorem web_and_cli_loops
    (refFn nativeFn : number -> number) (x : list number) :
  Forall (fun p => JS.wf (refFn p) = true /\ JS.wf (nativeFn p) = true) x ->
  let w := WebApp.analysis_loop refFn nativeFn x in
  let c := Compare.sweep_loop refFn nativeFn x in
  WebApp.maxUlp w = Compare.maxUlpDiff c
  /\ WebApp.totalUlp w = Compare.totalDiff c
  /\ WebApp.nAgree w
     = Compare.nAgree c + (Z.of_nat (length x) - Compare.nTotal c)
  /\ WebApp.nDiff w <= Compare.nTotal c - Compare.nAgree c.
Proof.
  intros Hwf w c.
  destruct (loops_related_fold refFn nativeFn x []
              WebApp.analysis_init Compare.sweep_init Hwf) as [H1 H2 H3 H4].
  - split; simpl; try reflexivity; lia.
  - repeat split; assumption.
Qed.

(** The Newton square root against the native one at [-1], [0], [2], [4]. *)
Lemma web_and_cli_loops_witness :
  let x := [JS.of_Z (-1); JS.of_Z 0; JS.of_Z 2; JS.of_Z 4] in
  Forall (fun p => JS.wf (WebApp.refSqrt p) = true
                   /\ JS.wf (JS.Math_sqrt p) = true) x
  /\ WebApp.maxUlp (WebApp.analysis_loop WebApp.refSqrt JS.Math_sqrt x)
     = Compare.maxUlpDiff (Compare.sweep_loop WebApp.refSqrt JS.Math_sqrt x).
Proof.
  assert (H : Forall (fun p => JS.wf (WebApp.refSqrt p) = true
                   /\ JS.wf (JS.Math_sqrt p) = true)
                [JS.of_Z (-1); JS.of_Z 0; JS.of_Z 2; JS.of_Z 4]).
  { repeat constructor. }
  split; [exact H |].
  apply (web_and_cli_loops WebApp.refSqrt JS.Math_sqrt _ H).
Defined.

(** X6.  [heaviside] is [0] below zero, [0.5] at both zeros and [1] above
    zero; at NaN, which fails both tests, it is [1].  Its value is one of
    these three doubles, and it never decreases: [x <= y] gives
    [heaviside(x) <= heaviside(y)]. *)
Theorem heaviside_steps :
  (forall x : number,
     WebApp.heaviside x =
     if JS.is_zero x then S754_finite false 4503599627370496 (-53)
     else match JS.sign_bit x with
          | Some true => JS.pos_zero
          | _ => JS.of_Z 1
          end)
  /\ WebApp.heaviside JS.NaN = JS.of_Z 1
  /\ WebApp.heaviside JS.neg_zero = JS.div (JS.of_Z 1) (JS.of_Z 2)
  /\ (forall x y : number,
        JS.le x y = true ->
        JS.le (WebApp.heaviside x) (WebApp.heaviside y) = true).
Proof.
  split; [| split; [reflexivity | split; [reflexivity |]]].
  - intros x. number_cases x; reflexivity.
  - intros x y. number_cases x; number_cases y; try discriminate;
      intros _; reflexivity.
Qed.


(** X7.  Off the positive finite doubles, [refSqrt] returns what the native
    square root returns: NaN at NaN, at [-Infinity] and at every negative
    number, the same zero at [+0] and at [-0], [+Infinity] at
    [+Infinity]. *)
Theorem refSqrt_edge_values (x : number) :
  positive_finite x = false ->
  WebApp.refSqrt x = JS.Math_sqrt x.
Proof.
  intros Hx. unfold WebApp.refSqrt.
  rewrite web_isnan_is_nan, web_isinfinite_is_inf.
  number_cases x; try discriminate Hx; reflexivity.
Qed.

Lemma refSqrt_edge_values_witness :
  positive_finite JS.neg_zero = false
  /\ WebApp.refSqrt JS.neg_zero = JS.Math_sqrt JS.neg_zero.
Proof.
  split; [reflexivity |].
  apply (refSqrt_edge_values JS.neg_zero). reflexivity.
Defined.

(** X8.  [formatNum] gives the text [NaN] exactly for NaN, the two texts
    of the infinities exactly for the two infinities and the text [-0]
    exactly for the negative zero; [toExponential] and [toPrecision] only
    ever format the argument itself, a finite double that is not the
    negative zero; and [+0] is formatted by [toPrecision]. *)
Theorem formatNum_texts (x : number) :
  (WebApp.formatNum x = WebApp.TextNaN <-> x = JS.NaN)
  /\ (WebApp.formatNum x = WebApp.TextPlusInfinity <-> x = JS.Infinity)
  /\ (WebApp.formatNum x = WebApp.TextMinusInfinity
      <-> x = JS.neg JS.Infinity)
  /\ (WebApp.formatNum x = WebApp.TextMinusZero <-> x = JS.neg_zero)
  /\ (forall y, WebApp.formatNum x = WebApp.Exponential4 y
                \/ WebApp.formatNum x = WebApp.Precision6 y ->
        y = x /\ JS.is_finite x = true /\ x <> JS.neg_zero)
  /\ WebApp.formatNum JS.pos_zero = WebApp.Precision6 JS.pos_zero.
Proof.
  unfold WebApp.formatNum. rewrite web_isnan_is_nan.
  number_cases x; simpl;
    try match goal with
    | |- context [if ?c then WebApp.Exponential4 _ else _] => destruct c
    end;
    repeat split; try discriminate; try reflexivity;
    match goal with
    | H : _ \/ _ |- _ =>
        destruct H as [H | H]; try discriminate H; inversion H;
        try reflexivity; discriminate
    end.
Qed.

(** X9.  The helpers of [web/app.js]: [isnan(x)] holds exactly for NaN,
    [isinfinite(x)] exactly for the two infinities, and [abs(x)] is the
    absolute value of [Math.abs] except at the negative zero, which it
    returns unchanged. *)
Theorem web_helpers (x : number) :
  (WebApp.isnan x = true <-> x = JS.NaN)
  /\ (WebApp.isinfinite x = true
      <-> x = JS.Infinity \/ x = JS.neg JS.Infinity)
  /\ (WebApp.abs x = JS.Math_abs x <-> x <> JS.neg_zero)
  /\ WebApp.abs JS.neg_zero = JS.neg_zero
  /\ JS.Math_abs JS.neg_zero = JS.pos_zero.
Proof.
  rewrite web_isnan_is_nan, web_isinfinite_is_inf.
  number_cases x; simpl; repeat split;
    try discriminate; try reflexivity; try tauto;
    try (intros [H | H]; discriminate H);
    try (intros H; now elim H); auto.
Qed.

Section Symmetry.

Lemma strict_eq_sym (a b : number) : JS.strict_eq a b = JS.strict_eq b a.
Proof.
  rewrite !strict_eq_ieee_equal.
  destruct a as [sa | sa | | sa ma ea], b as [sb | sb | | sb mb eb];
    try reflexivity; simpl.
  - destruct sa, sb; reflexivity.
  - rewrite (Pos.eqb_sym ma mb), (Z.eqb_sym ea eb).
    destruct sa, sb; reflexivity.
Qed.

End Symmetry.

(** X10.  [ulpDiff(a, a)] is [0] for every double but NaN, where it is NaN.
    Whenever the two values are equal, or one of them is NaN or infinite,
    [ulpDiff(a, b)] and [ulpDiff(b, a)] are the same double: the two
    orders can differ only for two distinct finite values. *)
Theorem ulpDiff_symmetric_cases :
  (forall a : number,
     Compare.ulpDiff a a = if JS.is_nan a then JS.NaN else JS.pos_zero)
  /\ (forall a b : number,
        JS.strict_eq a b = true \/ JS.is_finite a = false
        \/ JS.is_finite b = false ->
        Compare.ulpDiff a b = Compare.ulpDiff b a).
Proof.
  split.
  - intros a. unfold Compare.ulpDiff. rewrite !isnan_is_nan.
    destruct (JS.is_nan a) eqn:Hnan.
    + destruct a; try discriminate Hnan. reflexivity.
    + now rewrite strict_eq_refl.
  - intros a b H. unfold Compare.ulpDiff.
    rewrite (strict_eq_sym b a), !isnan_is_nan, !isinfinite_is_inf.
    destruct (JS.strict_eq a b) eqn:Heq; [reflexivity |].
    rewrite (orb_comm (JS.is_nan b)), (orb_comm (JS.is_inf b)).
    destruct (JS.is_nan a || JS.is_nan b) eqn:Hnan; [reflexivity |].
    destruct (JS.is_inf a || JS.is_inf b) eqn:Hinf; [reflexivity |].
    destruct H as [H | [H | H]]; [discriminate H | |];
      destruct a, b; discriminate.
Qed.

Section RangeScan.

Import AsciiPlot.


Lemma finite_below_infinity (y : number) :
  JS.is_finite y = true ->
  JS.lt y JS.Infinity = true /\ JS.gt y (JS.neg JS.Infinity) = true.
Proof. number_cases y; try discriminate; auto. Qed.

Lemma range_inv_sample (seen : list number) (r : number * number)
    (y : number) :
  range_inv seen r -> range_inv (seen ++ [y]) (range_sample r y).
Proof.
  intros [Hb He]. unfold range_sample.
  rewrite isnan_is_nan, isinfinite_is_inf.
  destruct (negb (JS.is_nan y) && negb (JS.is_inf y)) eqn:Hy.
  - assert (Hfin : JS.is_finite y = true) by (destruct y; simpl in *; auto).
    pose proof (finite_not_nan y Hfin) as Hnan.
    destruct He as [[-> Hnone] | (Hlo & Hhi & Hflo & Hfhi)].
    + destruct (finite_below_infinity y Hfin) as [H1 H2].
      cbn [fst snd]. rewrite H1, H2. split; cbn [fst snd].
      * intros z Hz Hfz. apply in_app_or in Hz.
        destruct Hz as [Hz | [<- | []]].
        -- rewrite (Hnone z Hz) in Hfz. discriminate.
        -- split; now apply le_refl.
      * right. repeat split; try assumption; apply in_or_app; right; now left.
    + destruct r as [lo hi]. cbn [fst snd] in *.
      pose proof (finite_not_nan lo Hflo) as Hnlo.
      pose proof (finite_not_nan hi Hfhi) as Hnhi.
      split; cbn [fst snd].
      * intros z Hz Hfz. apply in_app_or in Hz.
        destruct Hz as [Hz | [<- | []]].
        -- destruct (Hb z Hz Hfz) as [H1 H2]. split.
           ++ destruct (JS.lt y lo) eqn:Hlt; [| exact H1].
              eapply le_trans; [apply lt_le; exact Hlt | exact H1].
           ++ destruct (JS.gt y hi) eqn:Hgt; [| exact H2].
              eapply le_lt_le; [exact H2 | exact Hgt].
        -- split.
           ++ destruct (JS.lt y lo) eqn:Hlt; [now apply le_refl |].
              now apply not_lt_le.
           ++ destruct (JS.gt y hi) eqn:Hgt; [now apply le_refl |].
              now apply not_lt_le.
      * right.
        destruct (JS.lt y lo), (JS.gt y hi); repeat split;
          try assumption; apply in_or_app; auto; right; now left.
  - split.
    + intros z Hz Hfz. apply in_app_or in Hz.
      destruct Hz as [Hz | [<- | []]]; [now apply Hb |].
      destruct y; simpl in *; discriminate.
    + destruct He as [[-> Hnone] | (Hlo & Hhi & Hflo & Hfhi)].
      * left. split; [reflexivity |]. intros z Hz. apply in_app_or in Hz.
        destruct Hz as [Hz | [<- | []]]; [now apply Hnone |].
        destruct y; simpl in *; auto; discriminate.
      * right. repeat split; try assumption; apply in_or_app; now left.
Qed.

Lemma range_inv_fold (y seen : list number) (r : number * number) :
  range_inv seen r -> range_inv (seen ++ y) (fold_left range_sample y r).
Proof.
  revert seen r. induction y as [| y0 rest IH]; intros seen r Hinv.
  - now rewrite app_nil_r.
  - simpl. replace (seen ++ y0 :: rest) with ((seen ++ [y0]) ++ rest)
      by now rewrite <- app_assoc.
    apply IH. now apply range_inv_sample.
Qed.

Lemma range_scan_inv (y : list number) : range_inv y (range_scan y).
Proof.
  apply (range_inv_fold y [] (JS.Infinity, JS.neg JS.Infinity)).
  split; [intros z [] |]. left. split; [reflexivity | intros z []].
Qed.

End RangeScan.

(** X11.  The range that the first loop of [plotFunction] finds: every
    finite value lies between [ymin] and [ymax]; when no value is finite
    the range is still [(+Infinity, -Infinity)], and the test
    [ymin === ymax] leaves it so; otherwise [ymin] and [ymax] are two of
    the values and are finite. *)
Theorem plot_range_scan (y : list number) :
  let r := AsciiPlot.range_scan y in
  (forall v, In v y -> JS.is_finite v = true ->
     JS.le (fst r) v = true /\ JS.le v (snd r) = true)
  /\ ((forall v, In v y -> JS.is_finite v = false) ->
      r = (JS.Infinity, JS.neg JS.Infinity))
  /\ ((forall v, In v y -> JS.is_finite v = false) ->
      AsciiPlot.range_widen r = (JS.Infinity, JS.neg JS.Infinity))
  /\ ((exists v, In v y /\ JS.is_finite v = true) ->
      In (fst r) y /\ In (snd r) y
      /\ JS.is_finite (fst r) = true /\ JS.is_finite (snd r) = true).
Proof.
  intros r. destruct (range_scan_inv y) as [Hb He]. fold r in Hb, He.
  assert (Hempty : (forall v, In v y -> JS.is_finite v = false) ->
                   r = (JS.Infinity, JS.neg JS.Infinity)).
  { intros Hnone. destruct He as [[E _] | (Hlo & _ & Hflo & _)]; [exact E |].
    rewrite (Hnone _ Hlo) in Hflo. discriminate. }
  split; [exact Hb |]. split; [exact Hempty |]. split.
  - intros Hnone. rewrite (Hempty Hnone). reflexivity.
  - intros (v & Hv & Hfv).
    destruct He as [[_ Hnone] | H]; [| exact H].
    rewrite (Hnone v Hv) in Hfv. discriminate.
Qed.

Section WebPlot.

Import WebApp.

Variable fn : number -> number.


Lemma plot_scan_fold (x : list number) (st : plot_data) :
  let st' := fold_left (plot_sample fn) x st in
  points st' = points st ++ finite_samples fn x
  /\ (ymin st', ymax st')
     = fold_left AsciiPlot.range_sample (map fn x) (ymin st, ymax st).
Proof.
  revert st. induction x as [| x0 rest IH]; intros st; simpl.
  - now rewrite app_nil_r.
  - destruct (IH (plot_sample fn st x0)) as [Hp Hr].
    rewrite Hp, Hr. unfold plot_sample, AsciiPlot.range_sample, finite_samples.
    change isnan with StdlibJS.isnan. change isinfinite with StdlibJS.isinfinite.
    simpl. rewrite isnan_is_nan, isinfinite_is_inf.
    destruct (fn x0) eqn:E; simpl; rewrite ?app_nil_r, <- ?app_assoc;
      split; reflexivity.
Qed.

End WebPlot.

(** X12.  The first loop of [drawPlot] keeps, in order, exactly the samples
    [(x, fn(x))] whose value is finite; every kept value lies between
    [ymin] and [ymax]; and when no sample is kept the range is still
    [(+Infinity, -Infinity)]. *)
Theorem drawPlot_points (fn : number -> number) (x : list number) :
  let st := WebApp.plot_scan fn x in
  WebApp.points st = finite_samples fn x
  /\ (forall p, In p (WebApp.points st) ->
        p = (fst p, fn (fst p)) /\ In (fst p) x
        /\ JS.is_finite (snd p) = true
        /\ JS.le (WebApp.ymin st) (snd p) = true
        /\ JS.le (snd p) (WebApp.ymax st) = true)
  /\ (WebApp.points st = [] ->
      WebApp.ymin st = JS.Infinity /\ WebApp.ymax st = JS.neg JS.Infinity).
Proof.
  intros st.
  destruct (plot_scan_fold fn x WebApp.plot_init) as [Hp Hr].
  fold (WebApp.plot_scan fn x) in Hp, Hr. fold st in Hp, Hr.
  simpl in Hp.
  change (fold_left AsciiPlot.range_sample (map fn x)
            (WebApp.ymin WebApp.plot_init, WebApp.ymax WebApp.plot_init))
    with (AsciiPlot.range_scan (map fn x)) in Hr.
  destruct (range_scan_inv (map fn x)) as [Hb He]. rewrite <- Hr in Hb, He.
  cbn [fst snd] in Hb, He.
  split; [exact Hp |]. split.
  - intros p Hin. rewrite Hp in Hin. unfold finite_samples in Hin.
    apply filter_In in Hin. destruct Hin as [Hin Hfin].
    apply in_map_iff in Hin. destruct Hin as (v & <- & Hv). cbn [fst snd] in *.
    split; [reflexivity |]. split; [exact Hv |]. split; [exact Hfin |].
    apply Hb; [now apply in_map | exact Hfin].
  - intros Hnil. destruct He as [[E _] | (Hlo & _ & Hflo & _)].
    + injection E as E1 E2. split; assumption.
    + apply in_map_iff in Hlo. destruct Hlo as (v & Hv & Hin).
      assert (Hp' : In (v, fn v) (WebApp.points st)).
      { rewrite Hp. unfold finite_samples. apply filter_In. split.
        - apply in_map_iff. exists v. split; [reflexivity | exact Hin].
        - simpl. now rewrite Hv. }
      rewrite Hnil in Hp'. destruct Hp'.
Qed.

(** ** Rounding never invents a NaN *)

Section NotNaN.

Lemma shr_1_nonneg (mrs : shr_record) :
  0 <= shr_m mrs -> 0 <= shr_m (shr_1 mrs).
Proof.
  destruct mrs as [m r s]. destruct m as [| p | p]; simpl; try lia.
  destruct p; simpl; lia.
Qed.

Lemma shr_iter_nonneg (n : nat) (mrs : shr_record) :
  0 <= shr_m mrs -> 0 <= shr_m (Nat.iter n shr_1 mrs).
Proof.
  induction n as [| n IH]; intros H; simpl; [exact H |].
  apply shr_1_nonneg. now apply IH.
Qed.

Lemma shr_fexp_nonneg (m e : Z) (l : location) :
  0 <= m -> 0 <= shr_m (fst (shr_fexp JS.prec JS.emax m e l)).
Proof.
  intros Hm. unfold shr_fexp, shr.
  assert (Hrec : shr_m (shr_record_of_loc m l) = m)
    by (destruct l as [| []]; reflexivity).
  destruct (fexp JS.prec JS.emax (Zdigits2 m + e) - e) as [| k | k];
    cbn [fst]; try (rewrite Hrec; exact Hm).
  rewrite iter_pos_nat. apply shr_iter_nonneg. now rewrite Hrec.
Qed.

Lemma round_nearest_even_nonneg (m : Z) (l : location) :
  0 <= m -> 0 <= round_nearest_even m l.
Proof.
  intros Hm. destruct l as [| []]; simpl; try lia.
  destruct (Z.even m); lia.
Qed.

Lemma round_aux_not_nan (s : bool) (m e : Z) (l : location) :
  0 <= m -> JS.is_nan (binary_round_aux JS.prec JS.emax s m e l) = false.
Proof.
  intros Hm. unfold binary_round_aux.
  pose proof (shr_fexp_nonneg m e l Hm) as H1.
  destruct (shr_fexp JS.prec JS.emax m e l) as [mrs1 e1]. cbn [fst] in H1.
  pose proof (shr_fexp_nonneg _ e1 loc_Exact
                (round_nearest_even_nonneg _ (loc_of_shr_record mrs1) H1))
    as H2.
  destruct (shr_fexp JS.prec JS.emax _ e1 loc_Exact) as [mrs2 e2].
  cbn [fst] in H2.
  destruct (shr_m mrs2); [reflexivity | | lia].
  destruct (e2 <=? JS.emax - JS.prec); reflexivity.
Qed.

Lemma div_core_nonneg (m1 m2 : positive) (e1 e2 : Z) :
  0 <= fst (fst (SFdiv_core_binary JS.prec JS.emax
                   (Z.pos m1) e1 (Z.pos m2) e2)).
Proof.
  unfold SFdiv_core_binary.
  set (s := _ - _ - _).
  set (m' := match s with Z.pos _ => Z.shiftl (Z.pos m1) s | 0 => Z.pos m1
                        | Z.neg _ => 0 end).
  assert (Hm' : 0 <= m').
  { unfold m'. destruct s; try lia. apply Z.shiftl_nonneg. lia. }
  pose proof (Z.div_pos m' (Z.pos m2) Hm' ltac:(lia)) as Hq.
  unfold Z.div in Hq.
  destruct (Z.div_eucl m' (Z.pos m2)) as [q r]. exact Hq.
Qed.

(** Dividing a number that is not NaN by a finite non-zero double never
    gives NaN. *)
Lemma div_finite_not_nan (x : number) (sy : bool) (my : positive) (ey : Z) :
  JS.is_nan x = false ->
  JS.is_nan (JS.div x (S754_finite sy my ey)) = false.
Proof.
  intros Hx. destruct x as [sx | sx | | sx mx ex]; try discriminate Hx;
    try reflexivity.
  unfold JS.div, SFdiv.
  pose proof (div_core_nonneg mx my ex ey) as Hq.
  destruct (SFdiv_core_binary JS.prec JS.emax (Z.pos mx) ex (Z.pos my) ey)
    as [[mz ez] lz]. cbn [fst] in Hq.
  now apply round_aux_not_nan.
Qed.

Lemma mul_finite_not_nan (s : bool) (m : positive) (e : Z) (y : number) :
  JS.is_nan y = false ->
  JS.is_nan (JS.mul (S754_finite s m e) y) = false.
Proof.
  intros Hy. destruct y as [sy | sy | | sy my ey]; try discriminate Hy;
    try reflexivity.
  apply round_aux_not_nan. lia.
Qed.

Lemma binary_round_not_nan (s : bool) (p : positive) (e : Z) :
  JS.is_nan (binary_round JS.prec JS.emax s p e) = false.
Proof.
  unfold binary_round.
  destruct (shl_align p e _) as [mz ez]. apply round_aux_not_nan. lia.
Qed.

Lemma of_Z_not_nan (n : Z) : JS.is_nan (JS.of_Z n) = false.
Proof.
  unfold JS.of_Z, binary_normalize.
  destruct n; [reflexivity | |]; apply binary_round_not_nan.
Qed.

(** The sum of two doubles that are neither NaN nor negative is not NaN. *)
Lemma add_nonneg_not_nan (x y : number) :
  JS.is_nan x = false -> JS.sign_clear x = true ->
  JS.is_nan y = false -> JS.sign_clear y = true ->
  JS.is_nan (JS.add x y) = false /\ JS.sign_clear (JS.add x y) = true.
Proof.
  intros Hx Hsx Hy Hsy.
  number_cases x; try discriminate; number_cases y; try discriminate;
    try (split; reflexivity).
  unfold JS.add, SFadd, binary_normalize, cond_Zopp.
  match goal with
  | |- context [match ?z with Z0 => _ | Z.pos _ => _ | Z.neg _ => _ end] =>
      assert (Hz : 0 < z) by lia; destruct z as [| p | p]; try lia
  end.
  split; [apply binary_round_not_nan |].
  unfold binary_round. destruct (shl_align p _ _) as [mz ez].
  apply round_aux_sign_clear.
Qed.

End NotNaN.

(** ** Counters as doubles *)

Section Counts.

Lemma digits2_bounds (p : positive) :
  2 ^ (Z.pos (digits2_pos p) - 1) <= Z.pos p < 2 ^ Z.pos (digits2_pos p).
Proof.
  induction p as [p IH | p IH |]; cbn [digits2_pos].
  - rewrite Pos2Z.inj_succ.
    replace (Z.succ (Z.pos (digits2_pos p)) - 1)
      with (Z.succ (Z.pos (digits2_pos p) - 1)) by lia.
    rewrite !Z.pow_succ_r by lia. lia.
  - rewrite Pos2Z.inj_succ.
    replace (Z.succ (Z.pos (digits2_pos p)) - 1)
      with (Z.succ (Z.pos (digits2_pos p) - 1)) by lia.
    rewrite !Z.pow_succ_r by lia. lia.
  - simpl. lia.
Qed.

Lemma digits2_small (p : positive) :
  Z.pos p < 2 ^ 53 -> Z.pos (digits2_pos p) <= 53.
Proof.
  intros Hp. destruct (Z.le_gt_cases (Z.pos (digits2_pos p)) 53) as [H | H];
    [exact H |].
  pose proof (digits2_bounds p) as [Hlo _].
  assert (2 ^ 53 <= 2 ^ (Z.pos (digits2_pos p) - 1))
    by (apply Z.pow_le_mono_r; lia).
  lia.
Qed.

Lemma digits2_shift (p k : positive) :
  digits2_pos (Pos.iter xO p k) = (digits2_pos p + k)%positive.
Proof.
  induction k as [| k IH] using Pos.peano_ind.
  - simpl. lia.
  - rewrite Pos.iter_succ. cbn [digits2_pos]. rewrite IH. lia.
Qed.

(** A mantissa of 53 digits at an exponent of the format rounds to
    itself. *)
Lemma round_aux_exact (s : bool) (m : positive) (e : Z) :
  Z.pos (digits2_pos m) = 53 -> -1074 <= e <= 971 ->
  binary_round_aux JS.prec JS.emax s (Z.pos m) e loc_Exact
  = S754_finite s m e.
Proof.
  intros Hd He. unfold binary_round_aux, shr_fexp.
  cbn [Zdigits2 shr_record_of_loc]. rewrite Hd.
  replace (fexp JS.prec JS.emax (53 + e) - e) with 0
    by (unfold fexp, emin, JS.prec, JS.emax; lia).
  cbn [shr shr_m loc_of_shr_record round_nearest_even Zdigits2
       shr_record_of_loc]. rewrite Hd.
  replace (fexp JS.prec JS.emax (53 + e) - e) with 0
    by (unfold fexp, emin, JS.prec, JS.emax; lia).
  cbn [shr shr_m].
  replace (e <=? JS.emax - JS.prec) with true
    by (symmetry; apply Z.leb_le; unfold JS.emax, JS.prec; lia).
  reflexivity.
Qed.

(** A counter below [2^53] is a finite double. *)
Lemma of_Z_small_finite (n : Z) :
  0 < n < 2 ^ 53 -> exists m e, JS.of_Z n = S754_finite false m e.
Proof.
  intros Hn. destruct n as [| p | p]; try lia.
  unfold JS.of_Z, binary_normalize, binary_round, shl_align.
  pose proof (digits2_small p ltac:(lia)) as Hd.
  replace (fexp JS.prec JS.emax (Z.pos (digits2_pos p) + 0) - 0)
    with (Z.pos (digits2_pos p) - 53)
    by (unfold fexp, emin, JS.prec, JS.emax; lia).
  destruct (Z.pos (digits2_pos p) - 53) as [| k | k] eqn:Hk; try lia.
  - exists p, 0. apply round_aux_exact; lia.
  - eexists _, _.
    replace (fexp JS.prec JS.emax (Z.pos (digits2_pos p) + 0))
      with (Z.neg k) by (unfold fexp, emin, JS.prec, JS.emax; lia).
    apply round_aux_exact; [rewrite digits2_shift; lia | lia].
Qed.

End Counts.

Section RunningSum.

Import Compare.

Variables stdlibFn nativeFn : number -> number.


Lemma total_inv_sample (st : sweep) (x v w : number) :
  total_inv st -> total_inv (sweep_sample st x v w).
Proof.
  intros [Hnan Hsign]. unfold sweep_sample.
  destruct (StdlibJS.isnan v && StdlibJS.isnan w); [now split |].
  destruct (StdlibJS.isinfinite v && StdlibJS.isinfinite w
            && JS.strict_eq v w); [now split |].
  destruct (JS.strict_eq v w); [now split |].
  destruct (negb (StdlibJS.isnan (ulpDiff v w))
            && negb (StdlibJS.isinfinite (ulpDiff v w))) eqn:Hd;
    [| now split].
  apply not_nan_not_inf_finite in Hd.
  assert (Hsum : JS.is_nan (JS.add (totalDiff st) (ulpDiff v w)) = false
                 /\ JS.sign_clear (JS.add (totalDiff st) (ulpDiff v w))
                    = true).
  { apply add_nonneg_not_nan; try assumption.
    - now apply finite_not_nan.
    - apply ulpDiff_sign_clear. }
  unfold accumulate, total_inv.
  destruct (JS.gt (ulpDiff v w) (maxUlpDiff (count_total st))); exact Hsum.
Qed.

Lemma total_inv_fold (testPoints : list number) (st : sweep) :
  total_inv st ->
  total_inv (fold_left (sweep_step stdlibFn nativeFn) testPoints st).
Proof.
  revert st. induction testPoints as [| x rest IH]; intros st H; simpl.
  - exact H.
  - apply IH. unfold sweep_step. now apply total_inv_sample.
Qed.

Lemma nTotal_le_length (testPoints : list number) :
  nTotal (sweep_loop stdlibFn nativeFn testPoints)
  <= Z.of_nat (length testPoints).
Proof.
  unfold sweep_loop.
  destruct (fold_sweep_counters stdlibFn nativeFn testPoints sweep_init)
    as [Ht _].
  rewrite Ht. simpl.
  pose proof (filter_length_le (comparable stdlibFn nativeFn) testPoints).
  lia.
Qed.

End RunningSum.

(** X13.  For a sweep over fewer than [2^53] points, the percentage of
    exact agreement is NaN exactly when no sample is comparable, and the
    average ULP difference, when it is printed, is never NaN. *)
Theorem percentage_and_average
    (stdlibFn nativeFn : number -> number) (testPoints : list number) :
  Z.of_nat (length testPoints) < 2 ^ 53 ->
  let r := Compare.runComparison stdlibFn nativeFn testPoints in
  (Compare.agreementPercent r = JS.NaN <-> Compare.totalComparable r = 0)
  /\ (forall maxUlp avgUlp worst v w,
        Compare.ulpLines r = Compare.UlpStatistics maxUlp avgUlp worst v w ->
        JS.is_nan avgUlp = false).
Proof.
  intros Hlen r. subst r. unfold Compare.runComparison, Compare.report_of.
  cbn [Compare.agreementPercent Compare.totalComparable Compare.ulpLines].
  destruct (sweep_loop_inv stdlibFn nativeFn testPoints)
    as [Hagree Hfin Hnonneg Hdiv].
  pose proof (nTotal_le_length stdlibFn nativeFn testPoints) as Hle.
  destruct (total_inv_fold stdlibFn nativeFn testPoints Compare.sweep_init
              ltac:(split; reflexivity)) as [Htot _].
  fold (Compare.sweep_loop stdlibFn nativeFn testPoints) in Htot.
  set (st := Compare.sweep_loop stdlibFn nativeFn testPoints) in *.
  split.
  - split.
    + intros Hnan.
      destruct (Z.eq_dec (Compare.nTotal st) 0) as [E | E]; [exact E |].
      destruct (of_Z_small_finite (Compare.nTotal st) ltac:(lia))
        as (m & e & Hm).
      rewrite Hm in Hnan.
      assert (Hx : JS.is_nan (JS.mul (JS.of_Z 100)
                                (JS.of_Z (Compare.nAgree st))) = false).
      { change (JS.of_Z 100)
          with (S754_finite false 7036874417766400 (-46)).
        apply mul_finite_not_nan, of_Z_not_nan. }
      pose proof (div_finite_not_nan _ false m e Hx) as Hq.
      rewrite Hnan in Hq. discriminate Hq.
    + intros E. rewrite E.
      replace (Compare.nAgree st) with 0 by lia. reflexivity.
  - intros maxUlp avgUlp worst v w.
    destruct (JS.gt (Compare.maxUlpDiff st) (JS.of_Z 0)) eqn:Hgt;
      [| discriminate].
    intros H. injection H as _ <- _ _ _.
    specialize (Hdiv eq_refl).
    destruct (of_Z_small_finite (Compare.nTotal st - Compare.nAgree st)
                ltac:(lia)) as (m & e & Hm).
    rewrite Hm. now apply div_finite_not_nan.
Qed.

Lemma percentage_and_average_witness :
  Z.of_nat (length [JS.of_Z 2; JS.of_Z 4]) < 2 ^ 53
  /\ (Compare.agreementPercent
        (Compare.runComparison WebApp.refSqrt JS.Math_sqrt
           [JS.of_Z 2; JS.of_Z 4]) = JS.NaN
      <-> Compare.totalComparable
            (Compare.runComparison WebApp.refSqrt JS.Math_sqrt
               [JS.of_Z 2; JS.of_Z 4]) = 0).
Proof.
  assert (H : Z.of_nat (length [JS.of_Z 2; JS.of_Z 4]) < 2 ^ 53)
    by reflexivity.
  split; [exact H |].
  apply (percentage_and_average WebApp.refSqrt JS.Math_sqrt
           [JS.of_Z 2; JS.of_Z 4] H).
Defined.

(** ** The difference of two distinct doubles *)

Section Difference.

Lemma wf_canonical (s : bool) (m : positive) (e : Z) :
  JS.wf (S754_finite s m e) = true ->
  fexp JS.prec JS.emax (Z.pos (digits2_pos m) + e) = e /\ e <= 971.
Proof.
  unfold JS.wf, valid_binary, bounded, canonical_mantissa.
  intros H. apply andb_prop in H. destruct H as [H1 H2].
  apply Z.eqb_eq in H1. apply Z.leb_le in H2.
  unfold JS.emax, JS.prec in *. split; [exact H1 | lia].
Qed.

Lemma shl_align_digits (m : positive) (e ez : Z) :
  ez <= e ->
  Z.pos (digits2_pos (fst (shl_align m e ez)))
  = Z.pos (digits2_pos m) + (e - ez).
Proof.
  intros He. unfold shl_align.
  destruct (ez - e) as [| k | k] eqn:Hk; cbn [fst]; try lia.
  rewrite digits2_shift. lia.
Qed.

Lemma shl_align_same (m : positive) (e : Z) : fst (shl_align m e e) = m.
Proof. unfold shl_align. now rewrite Z.sub_diag. Qed.

(** Two well-formed finite doubles with the same aligned mantissa have the
    same mantissa and the same exponent. *)
Lemma aligned_equal (sa sb : bool) (ma mb : positive) (ea eb : Z) :
  JS.wf (S754_finite sa ma ea) = true ->
  JS.wf (S754_finite sb mb eb) = true ->
  fst (shl_align ma ea (Z.min ea eb)) = fst (shl_align mb eb (Z.min ea eb)) ->
  ma = mb /\ ea = eb.
Proof.
  intros Ha Hb Heq.
  apply wf_canonical in Ha. apply wf_canonical in Hb.
  destruct Ha as [Ha _], Hb as [Hb _].
  assert (Hd : Z.pos (digits2_pos ma) + ea = Z.pos (digits2_pos mb) + eb).
  { pose proof (shl_align_digits ma ea (Z.min ea eb) ltac:(lia)) as H1.
    pose proof (shl_align_digits mb eb (Z.min ea eb) ltac:(lia)) as H2.
    rewrite Heq in H1. lia. }
  assert (He : ea = eb) by (rewrite <- Ha, <- Hb, Hd; reflexivity).
  subst eb. rewrite Z.min_id, !shl_align_same in Heq. auto.
Qed.

(** The difference of two distinct well-formed finite doubles is a
    non-zero finite double or an infinity. *)
Lemma sub_finite_nonzero (sa sb : bool) (ma mb : positive) (ea eb : Z) :
  JS.wf (S754_finite sa ma ea) = true ->
  JS.wf (S754_finite sb mb eb) = true ->
  JS.strict_eq (S754_finite sa ma ea) (S754_finite sb mb eb) = false ->
  JS.is_nan (JS.sub (S754_finite sa ma ea) (S754_finite sb mb eb)) = false
  /\ JS.is_zero (JS.sub (S754_finite sa ma ea) (S754_finite sb mb eb))
     = false.
Proof.
  intros Ha Hb Hne.
  pose proof (wf_exponent _ _ _ Ha) as Hea.
  pose proof (wf_exponent _ _ _ Hb) as Heb.
  assert (He : emin JS.prec JS.emax <= Z.min ea eb) by lia.
  unfold JS.sub, SFsub, binary_normalize.
  set (Ma := fst (shl_align ma ea (Z.min ea eb))).
  set (Mb := fst (shl_align mb eb (Z.min ea eb))).
  assert (Hz : cond_Zopp sa (Z.pos Ma) - cond_Zopp sb (Z.pos Mb) <> 0).
  { intros Hz.
    assert (Hs : sa = sb /\ Ma = Mb)
      by (destruct sa, sb; unfold cond_Zopp in Hz; split;
          try reflexivity; first [lia | exfalso; lia]).
    destruct Hs as [-> HM].
    destruct (aligned_equal sb sb ma mb ea eb Ha Hb HM) as [-> ->].
    rewrite strict_eq_refl in Hne by reflexivity. discriminate. }
  destruct (cond_Zopp sa (Z.pos Ma) - cond_Zopp sb (Z.pos Mb))
    as [| p | p]; [now elim Hz | |].
  - destruct (binary_round_nonzero false p _ He) as [(m' & e' & H) | H];
      rewrite H; split; reflexivity.
  - destruct (binary_round_nonzero true p _ He) as [(m' & e' & H) | H];
      rewrite H; split; reflexivity.
Qed.

End Difference.

(** ** Rounding below the overflow threshold *)

Section NoOverflow.

Lemma digits2_le (q : positive) (n : Z) :
  0 <= n -> Z.pos q < 2 ^ n -> Z.pos (digits2_pos q) <= n.
Proof.
  intros Hn Hq.
  destruct (Z.le_gt_cases (Z.pos (digits2_pos q)) n) as [H | H]; [exact H |].
  pose proof (digits2_bounds q) as [Hlo _].
  assert (2 ^ n <= 2 ^ (Z.pos (digits2_pos q) - 1))
    by (apply Z.pow_le_mono_r; lia).
  lia.
Qed.

Lemma shr_1_digits (mrs : shr_record) :
  0 <= shr_m mrs ->
  Zdigits2 (shr_m (shr_1 mrs)) = Z.max 0 (Zdigits2 (shr_m mrs) - 1).
Proof.
  destruct mrs as [m r s]. destruct m as [| p | p];
    cbn [shr_m]; try lia; [reflexivity |].
  intros _. destruct p; cbn [shr_1 shr_m Zdigits2 digits2_pos]; lia.
Qed.

Lemma shr_iter_digits (n : nat) (mrs : shr_record) :
  0 <= shr_m mrs ->
  Zdigits2 (shr_m (Nat.iter n shr_1 mrs))
  = Z.max 0 (Zdigits2 (shr_m mrs) - Z.of_nat n).
Proof.
  intros Hm. induction n as [| n IH].
  - simpl. destruct (shr_m mrs); simpl; lia.
  - rewrite Nat.iter_succ, shr_1_digits by now apply shr_iter_nonneg.
    rewrite IH. lia.
Qed.

(** The exponent that [shr_fexp] returns, and the size of what is left of
    the mantissa. *)
Lemma shr_fexp_exponent (m e : Z) (l : location) :
  0 <= m ->
  let r := shr_fexp JS.prec JS.emax m e l in
  snd r = Z.max e (fexp JS.prec JS.emax (Zdigits2 m + e))
  /\ Zdigits2 (shr_m (fst r)) + snd r <= Z.max (snd r) (Zdigits2 m + e).
Proof.
  intros Hm. unfold shr_fexp, shr.
  assert (Hrec : shr_m (shr_record_of_loc m l) = m)
    by (destruct l as [| []]; reflexivity).
  destruct (fexp JS.prec JS.emax (Zdigits2 m + e) - e) as [| k | k] eqn:Hk;
    cbn [fst snd]; rewrite ?Hrec; try (split; lia).
  rewrite iter_pos_nat, shr_iter_digits by (rewrite Hrec; exact Hm).
  rewrite Hrec, positive_nat_Z. split; lia.
Qed.

Lemma round_nearest_even_digits (m : Z) (l : location) :
  0 <= m -> Zdigits2 (round_nearest_even m l) <= Zdigits2 m + 1.
Proof.
  intros Hm.
  assert (Hsucc : Zdigits2 (m + 1) <= Zdigits2 m + 1).
  { destruct m as [| p | p]; try lia; [simpl; lia |].
    replace (Z.pos p + 1) with (Z.pos (p + 1)) by lia. cbn [Zdigits2].
    apply digits2_le; [lia |].
    pose proof (digits2_bounds p) as [_ Hhi].
    rewrite Z.pow_add_r by lia. lia. }
  destruct l as [| []]; cbn [round_nearest_even]; try lia.
  destruct (Z.even m); lia.
Qed.

(** A value below [2^1023] does not round to an infinity. *)
Lemma round_aux_not_inf (s : bool) (m e : Z) (l : location) :
  0 <= m -> e <= 971 -> Zdigits2 m + e <= 1023 ->
  JS.is_inf (binary_round_aux JS.prec JS.emax s m e l) = false.
Proof.
  intros Hm He Hd. unfold binary_round_aux.
  pose proof (shr_fexp_exponent m e l Hm) as [He1 Hd1].
  pose proof (shr_fexp_nonneg m e l Hm) as Hm1.
  destruct (shr_fexp JS.prec JS.emax m e l) as [mrs1 e1].
  cbn [fst snd] in He1, Hd1, Hm1.
  set (m1 := round_nearest_even (shr_m mrs1) (loc_of_shr_record mrs1)).
  pose proof (round_nearest_even_nonneg _ (loc_of_shr_record mrs1) Hm1)
    as Hm1'.
  pose proof (round_nearest_even_digits _ (loc_of_shr_record mrs1) Hm1)
    as Hd1'.
  fold m1 in Hm1', Hd1'.
  pose proof (shr_fexp_exponent m1 e1 loc_Exact Hm1') as [He2 _].
  destruct (shr_fexp JS.prec JS.emax m1 e1 loc_Exact) as [mrs2 e2].
  cbn [fst snd] in He2.
  assert (Hle : e2 <= 971)
    by (unfold fexp, emin, JS.prec, JS.emax in *; lia).
  destruct (shr_m mrs2); try reflexivity.
  replace (e2 <=? JS.emax - JS.prec) with true
    by (symmetry; apply Z.leb_le; unfold JS.emax, JS.prec; lia).
  reflexivity.
Qed.

(** [|a| * eps] is never an infinity. *)
Lemma mul_eps_not_inf (s : bool) (m : positive) (e : Z) :
  JS.wf (S754_finite s m e) = true ->
  JS.is_inf (JS.mul (SFabs (S754_finite s m e)) StdlibJS.FLOAT64_EPS) = false.
Proof.
  intros Hwf. destruct (wf_canonical _ _ _ Hwf) as [Hc He].
  unfold JS.mul, SFmul, SFabs, StdlibJS.FLOAT64_EPS.
  apply round_aux_not_inf; try lia.
  cbn [Zdigits2].
  assert (Hdm : Z.pos (digits2_pos m) <= 53)
    by (unfold fexp, emin, JS.prec, JS.emax in Hc; lia).
  assert (Z.pos (digits2_pos (m * 4503599627370496))
          <= Z.pos (digits2_pos m) + 52).
  { apply digits2_le; [lia |].
    pose proof (digits2_bounds m) as [_ Hhi].
    rewrite Z.pow_add_r, Pos2Z.inj_mul by lia.
    change (2 ^ 52) with 4503599627370496. lia. }
  lia.
Qed.

End NoOverflow.

(** X14.  For two doubles [a] and [b], [ulpDiff(a, b)] is NaN exactly when
    [a] or [b] is NaN: no pair of numbers makes the quotients [0 / 0] or
    [Infinity / Infinity]. *)
Theorem ulpDiff_nan_only_for_nan (a b : number) :
  JS.wf a = true -> JS.wf b = true ->
  (Compare.ulpDiff a b = JS.NaN <-> a = JS.NaN \/ b = JS.NaN).
Proof.
  intros Ha Hb. rewrite ulpDiff_policy. unfold Policy.ulpDistance.
  rewrite <- strict_eq_ieee_equal.
  destruct (JS.strict_eq a b) eqn:Hab.
  { split; [discriminate |]. intros H. exfalso.
    destruct a, b; destruct H as [H | H]; try discriminate H;
      simpl in Hab; discriminate Hab. }
  destruct a as [sa | sa | | sa ma ea], b as [sb | sb | | sb mb eb];
    try (split; [discriminate | intros [H | H]; discriminate H]);
    try (split; auto; fail).
  - (* a zero, b finite *)
    split; [| intros [H | H]; discriminate H]. intros H.
    pose proof (div_finite_not_nan (SFabs (S754_finite sb mb eb))
                  false 4503599627370496 (-105) eq_refl) as Hq.
    change (S754_finite false 4503599627370496 (-105))
      with (JS.div Policy.machineEpsilon (JS.of_Z 2)) in Hq.
    rewrite H in Hq. discriminate Hq.
  - (* a finite, b zero *)
    split; [| intros [H | H]; discriminate H]. intros H. exfalso.
    pose proof (mul_eps_not_inf sa ma ea Ha) as Hy.
    pose proof (mul_finite_not_nan false ma ea Policy.machineEpsilon eq_refl)
      as Hy'.
    change StdlibJS.FLOAT64_EPS with Policy.machineEpsilon in Hy.
    cbn [SFabs JS.sub SFsub] in H. cbn [SFabs] in Hy.
    destruct (JS.mul (S754_finite false ma ea) Policy.machineEpsilon)
      as [sy | sy | | sy my ey] eqn:E; try discriminate.
    pose proof (div_finite_not_nan (S754_finite false ma ea) sy my ey eq_refl)
      as Hq.
    rewrite H in Hq. discriminate Hq.
  - (* a finite, b finite *)
    split; [| intros [H | H]; discriminate H]. intros H. exfalso.
    destruct (sub_finite_nonzero sa sb ma mb ea eb Ha Hb Hab) as [Hn Hz].
    pose proof (mul_eps_not_inf sa ma ea Ha) as Hy.
    pose proof (mul_finite_not_nan false ma ea Policy.machineEpsilon eq_refl)
      as Hy'.
    change StdlibJS.FLOAT64_EPS with Policy.machineEpsilon in Hy.
    cbn [SFabs] in Hy. cbn [SFabs] in H.
    destruct (JS.sub (S754_finite sa ma ea) (S754_finite sb mb eb))
      as [sx | sx | | sx mx ex]; try discriminate;
      destruct (JS.mul (S754_finite false ma ea) Policy.machineEpsilon)
        as [sy | sy | | sy my ey] eqn:E; try discriminate.
    pose proof (div_finite_not_nan (S754_finite false mx ex) sy my ey eq_refl)
      as Hq.
    cbn [SFabs] in H. rewrite H in Hq. discriminate Hq.
Qed.

Lemma ulpDiff_nan_only_for_nan_witness :
  JS.wf (JS.of_Z 3) = true /\ JS.wf JS.NaN = true
  /\ (Compare.ulpDiff (JS.of_Z 3) JS.NaN = JS.NaN
      <-> JS.of_Z 3 = JS.NaN \/ JS.NaN = JS.NaN).
Proof.
  split; [reflexivity |]. split; [reflexivity |].
  apply (ulpDiff_nan_only_for_nan (JS.of_Z 3) JS.NaN); reflexivity.
Defined.

(** ** The rows of the character grid *)

Section ClampRow.

Lemma wf_mantissa_small (s : bool) (m : positive) (e : Z) :
  JS.wf (S754_finite s m e) = true -> Z.pos m < 2 ^ 53.
Proof.
  intros Hwf. destruct (wf_canonical _ _ _ Hwf) as [Hc _].
  pose proof (digits2_bounds m) as [_ Hhi].
  assert (Hd : Z.pos (digits2_pos m) <= 53)
    by (unfold fexp, emin, JS.prec, JS.emax in Hc; lia).
  assert (2 ^ Z.pos (digits2_pos m) <= 2 ^ 53)
    by (apply Z.pow_le_mono_r; lia).
  lia.
Qed.

(** The integer part of a well-formed positive double that is at most
    [17]. *)
Lemma floor_at_most_17 (m : positive) (e : Z) :
  JS.wf (S754_finite false m e) = true ->
  JS.lt (JS.of_Z 17) (S754_finite false m e) = false ->
  exists k, 0 <= k <= 17 /\ JS.Math_floor (S754_finite false m e) = JS.of_Z k.
Proof.
  intros Hwf Hlt.
  pose proof (wf_mantissa_small _ _ _ Hwf) as Hm.
  apply not_lt_le in Hlt; try reflexivity.
  apply le_key in Hlt. destruct Hlt as (_ & _ & Hkey).
  change (JS.of_Z 17) with (S754_finite false 4785074604081152 (-48)) in Hkey.
  cbn [order_key] in Hkey. unfold key_lt in Hkey.
  assert (He : e < -48 \/ (e = -48 /\ Z.pos m <= 4785074604081152)).
  { destruct Hkey as [H | H]; [lia | inversion H; lia]. }
  unfold JS.Math_floor.
  replace (0 <=? e) with false by (symmetry; apply Z.leb_gt; lia).
  exists (Z.shiftr (Z.pos m) (- e)). split; [| reflexivity].
  rewrite Z.shiftr_div_pow2 by lia. split.
  - apply Z.div_pos; [lia | apply Z.pow_pos_nonneg; lia].
  - apply Z.div_le_upper_bound; [apply Z.pow_pos_nonneg; lia |].
    destruct He as [He | [-> Hm17]].
    + assert (2 ^ 49 <= 2 ^ (- e)) by (apply Z.pow_le_mono_r; lia).
      change (2 ^ 53) with (16 * 2 ^ 49) in Hm. lia.
    + change (2 ^ (- -48)) with 281474976710656. lia.
Qed.

End ClampRow.

(** The clamped row of a double that is not NaN. *)
Lemma clamp_row_range (row : number) :
  JS.wf row = true -> JS.is_nan row = false ->
  exists k, 0 <= k <= AsciiPlot.PLOT_HEIGHT - 1
            /\ AsciiPlot.clamp_row row = JS.of_Z k.
Proof.
  intros Hwf Hnan. unfold AsciiPlot.clamp_row, AsciiPlot.PLOT_HEIGHT, StdlibJS.floor.
  change (JS.of_Z (18 - 1)) with (JS.of_Z 17). change (18 - 1) with 17.
  destruct row as [s | s | | s m e]; try discriminate Hnan.
  - exists 0. split; [lia |]. destruct s; reflexivity.
  - destruct s; [exists 0 | exists 17]; split; try lia; reflexivity.
  - destruct s.
    + exists 0. split; [lia |].
      unfold StdlibJS.min, StdlibJS.max. rewrite !isnan_is_nan. reflexivity.
    + unfold StdlibJS.min. rewrite !isnan_is_nan.
      cbn [JS.is_nan orb]. 
      replace (JS.strict_eq (JS.of_Z 17) StdlibJS.NINF
               || JS.strict_eq (S754_finite false m e) StdlibJS.NINF)
        with false by reflexivity.
      replace (JS.strict_eq (JS.of_Z 17) (JS.of_Z 0)) with false
        by reflexivity.
      rewrite andb_false_r.
      destruct (JS.lt (JS.of_Z 17) (S754_finite false m e)) eqn:Hlt.
      * exists 17. split; [lia | reflexivity].
      * unfold StdlibJS.max. rewrite !isnan_is_nan.
        change (JS.is_nan (JS.of_Z 0) || JS.is_nan (S754_finite false m e))
          with false.
        cbn iota.
        replace (JS.strict_eq (JS.of_Z 0) StdlibJS.PINF
                 || JS.strict_eq (S754_finite false m e) StdlibJS.PINF)
          with false by reflexivity.
        replace (JS.strict_eq (JS.of_Z 0) (S754_finite false m e)) with false
          by reflexivity.
        cbn [andb].
        replace (JS.gt (JS.of_Z 0) (S754_finite false m e)) with false
          by reflexivity.
        now apply floor_at_most_17.
Qed.

(** X15.  The row that [plotFunction] writes to after clamping,
    [floor(max(0, min(PLOT_HEIGHT - 1, row)))], is one of the integers
    [0], ..., [17] for every double [row] but NaN, so it is a row of the
    grid; an integer from [0] to [17] is kept as it is; and for NaN the
    clamped row is NaN again. *)
Theorem clamp_row_in_grid :
  (forall row : number,
     JS.wf row = true -> JS.is_nan row = false ->
     exists k, 0 <= k <= AsciiPlot.PLOT_HEIGHT - 1
               /\ AsciiPlot.clamp_row row = JS.of_Z k)
  /\ (forall k : Z,
        0 <= k <= AsciiPlot.PLOT_HEIGHT - 1 ->
        AsciiPlot.clamp_row (JS.of_Z k) = JS.of_Z k)
  /\ AsciiPlot.clamp_row JS.NaN = JS.NaN.
Proof.
  split; [exact clamp_row_range |]. split; [| reflexivity].
  intros k Hk. unfold AsciiPlot.PLOT_HEIGHT in Hk.
  assert (Hcases : k = 0 \/ k = 1 \/ k = 2 \/ k = 3 \/ k = 4 \/ k = 5
                   \/ k = 6 \/ k = 7 \/ k = 8 \/ k = 9 \/ k = 10
                   \/ k = 11 \/ k = 12 \/ k = 13 \/ k = 14 \/ k = 15
                   \/ k = 16 \/ k = 17) by lia.
  repeat (destruct Hcases as [-> | Hcases]; [vm_compute; reflexivity |]).
  subst k. vm_compute. reflexivity.
Qed.

(** The clamp at [16.999], which is not an integer, and at [25], which is
    above the grid. *)
Lemma clamp_row_in_grid_witness :
  JS.wf (JS.decimal 16999 3) = true
  /\ JS.is_nan (JS.decimal 16999 3) = false
  /\ AsciiPlot.clamp_row (JS.decimal 16999 3) = JS.of_Z 16
  /\ AsciiPlot.clamp_row (JS.of_Z 25) = JS.of_Z 17
  /\ exists k, 0 <= k <= AsciiPlot.PLOT_HEIGHT - 1
               /\ AsciiPlot.clamp_row (JS.decimal 16999 3) = JS.of_Z k.
Proof.
  repeat (split; [vm_compute; reflexivity |]).
  apply (proj1 clamp_row_in_grid (JS.decimal 16999 3)); reflexivity.
Defined.

(** ** The first point of the maximum *)

Section FirstMaximum.

Import Compare.

Variables stdlibFn nativeFn : number -> number.

Lemma le_lt_lt (x y z : number) :
  JS.le x y = true -> JS.lt y z = true -> JS.lt x z = true.
Proof.
  rewrite le_key, !lt_key. intros (Hx & Hy & Hxy) (_ & Hz & Hyz).
  repeat split; try assumption.
  destruct Hxy as [Hxy | Hxy]; [eapply key_lt_trans; eassumption |].
  now rewrite Hxy.
Qed.

Lemma first_inv_keep (seen : list number) (st st' : sweep) (x : number) :
  maxUlpDiff st' = maxUlpDiff st -> worstCase st' = worstCase st ->
  first_inv stdlibFn nativeFn seen st ->
  first_inv stdlibFn nativeFn (seen ++ [x]) st'.
Proof.
  intros Hm Hw Hinv. unfold first_inv. rewrite Hm, Hw. intros Hgt.
  destruct (Hinv Hgt) as (before & after & -> & Hlt).
  exists before, (after ++ [x]). split; [| exact Hlt].
  now rewrite <- app_assoc.
Qed.

Lemma first_inv_step (seen : list number) (st : sweep) (x : number) :
  worst_inv stdlibFn nativeFn seen st ->
  first_inv stdlibFn nativeFn seen st ->
  first_inv stdlibFn nativeFn (seen ++ [x]) (sweep_step stdlibFn nativeFn st x).
Proof.
  intros [Hbound _] Hinv. unfold sweep_step, sweep_sample.
  destruct (StdlibJS.isnan (stdlibFn x) && StdlibJS.isnan (nativeFn x));
    [now apply first_inv_keep with st |].
  destruct (StdlibJS.isinfinite (stdlibFn x) && StdlibJS.isinfinite (nativeFn x)
            && JS.strict_eq (stdlibFn x) (nativeFn x));
    [now apply first_inv_keep with st |].
  destruct (JS.strict_eq (stdlibFn x) (nativeFn x));
    [now apply first_inv_keep with st |].
  destruct (negb (StdlibJS.isnan (ulpDiff (stdlibFn x) (nativeFn x)))
            && negb (StdlibJS.isinfinite (ulpDiff (stdlibFn x) (nativeFn x))));
    [| now apply first_inv_keep with st].
  unfold accumulate. cbn [maxUlpDiff count_total worstCase].
  destruct (JS.gt (ulpDiff (stdlibFn x) (nativeFn x)) (maxUlpDiff st)) eqn:Hgt;
    [| now apply first_inv_keep with st].
  intros _. cbn [maxUlpDiff worstCase].
  exists seen, []. split; [reflexivity |].
  intros y Hy Hfy. eapply le_lt_lt; [now apply Hbound | exact Hgt].
Qed.

Lemma first_inv_fold (testPoints seen : list number) (st : sweep) :
  sweep_inv st -> worst_inv stdlibFn nativeFn seen st ->
  first_inv stdlibFn nativeFn seen st ->
  first_inv stdlibFn nativeFn (seen ++ testPoints)
    (fold_left (sweep_step stdlibFn nativeFn) testPoints st).
Proof.
  revert seen st. induction testPoints as [| x rest IH];
    intros seen st Hs Hw Hf.
  - now rewrite app_nil_r.
  - simpl. replace (seen ++ x :: rest) with ((seen ++ [x]) ++ rest)
      by now rewrite <- app_assoc.
    apply IH.
    + unfold sweep_step. now apply sweep_inv_sample.
    + now apply worst_inv_step.
    + now apply first_inv_step.
Qed.

End FirstMaximum.

(** X16.  When the maximum is positive, [worstCase] is the first test
    point at which it was measured: every test point before it, in the
    order of the sweep, has a strictly smaller distance when its distance
    is finite. *)
Theorem worst_case_is_the_first_maximum
    (stdlibFn nativeFn : number -> number) (testPoints : list number) :
  let st := Compare.sweep_loop stdlibFn nativeFn testPoints in
  JS.gt (Compare.maxUlpDiff st) (JS.of_Z 0) = true ->
  exists before after,
    testPoints = before ++ Compare.worstCase st :: after
    /\ Compare.ulpDiff (stdlibFn (Compare.worstCase st))
                       (nativeFn (Compare.worstCase st))
       = Compare.maxUlpDiff st
    /\ forall x, In x before ->
         JS.is_finite (Compare.ulpDiff (stdlibFn x) (nativeFn x)) = true ->
         JS.lt (Compare.ulpDiff (stdlibFn x) (nativeFn x))
               (Compare.maxUlpDiff st) = true.
Proof.
  intros st Hgt.
  assert (Hw0 : worst_inv stdlibFn nativeFn [] Compare.sweep_init)
    by (split; [intros x [] | discriminate]).
  assert (Hf0 : first_inv stdlibFn nativeFn [] Compare.sweep_init)
    by (intros H; discriminate H).
  pose proof (first_inv_fold stdlibFn nativeFn testPoints []
                Compare.sweep_init sweep_inv_init Hw0 Hf0) as Hfirst.
  destruct (worst_inv_fold stdlibFn nativeFn testPoints []
              Compare.sweep_init sweep_inv_init Hw0) as [_ Hatt].
  destruct (Hfirst Hgt) as (before & after & Hsplit & Hlt).
  destruct (Hatt Hgt) as [_ Heq].
  exists before, after. repeat split; assumption.
Qed.

(** The identity against its successor over [1], [2], [1]: the distance is
    largest at [1], met first at the head. *)
Lemma worst_case_is_the_first_maximum_witness :
  let f := fun x : number => x in
  let g := fun x : number => JS.add x (JS.of_Z 1) in
  let pts := [JS.of_Z 1; JS.of_Z 2; JS.of_Z 1] in
  JS.gt (Compare.maxUlpDiff (Compare.sweep_loop f g pts)) (JS.of_Z 0) = true
  /\ exists before after,
       pts = before
             ++ Compare.worstCase (Compare.sweep_loop f g pts) :: after
       /\ Compare.ulpDiff
            (f (Compare.worstCase (Compare.sweep_loop f g pts)))
            (g (Compare.worstCase (Compare.sweep_loop f g pts)))
          = Compare.maxUlpDiff (Compare.sweep_loop f g pts)
       /\ forall x, In x before ->
            JS.is_finite (Compare.ulpDiff (f x) (g x)) = true ->
            JS.lt (Compare.ulpDiff (f x) (g x))
                  (Compare.maxUlpDiff (Compare.sweep_loop f g pts)) = true.
Proof.
  intros f g pts.
  assert (H : JS.gt (Compare.maxUlpDiff (Compare.sweep_loop f g pts))
                    (JS.of_Z 0) = true) by reflexivity.
  split; [exact H |].
  exact (worst_case_is_the_first_maximum f g pts H).
Defined.

(** ** The statistics of the page *)

Section WebStatistics.

Lemma mul_by_finite_not_nan (x : number) (s : bool) (m : positive) (e : Z) :
  JS.is_nan x = false ->
  JS.is_nan (JS.mul x (S754_finite s m e)) = false.
Proof.
  intros Hx. destruct x as [sx | sx | | sx mx ex]; try discriminate Hx;
    try reflexivity.
  apply round_aux_not_nan. lia.
Qed.

End WebStatistics.

(** X17.  For fewer than [2^53] points, the percentage that
    [runAccuracyAnalysis] shows is NaN exactly when [n] is zero, whatever
    the two functions return; and when the two functions return doubles
    the average, when one is computed, is never NaN. *)
Theorem web_percentage_and_average
    (refFn nativeFn : number -> number) (xmin xmax : number) (n : nat) :
  Z.of_nat n < 2 ^ 53 ->
  let s := WebApp.runAccuracyAnalysis refFn nativeFn xmin xmax n in
  (WebApp.statAgree s = JS.NaN <-> n = 0%nat)
  /\ (Forall (fun p => JS.wf (refFn p) = true /\ JS.wf (nativeFn p) = true)
        (WebApp.linspace xmin xmax n) ->
      forall avg, WebApp.statAvgUlp s = Some avg -> JS.is_nan avg = false).
Proof.
  intros Hn s. subst s. unfold WebApp.runAccuracyAnalysis.
  cbn [WebApp.statAgree WebApp.statAvgUlp].
  destruct (analysis_loop_inv refFn nativeFn (WebApp.linspace xmin xmax n))
    as [_ _ Hcnt _ _ _].
  rewrite linspace_length in Hcnt.
  set (st := WebApp.analysis_loop refFn nativeFn
               (WebApp.linspace xmin xmax n)) in *.
  split.
  - split.
    + intros Hnan. destruct n as [| k]; [reflexivity | exfalso].
      destruct (of_Z_small_finite (Z.of_nat (S k)) ltac:(lia))
        as (m & e & Hm).
      rewrite Hm in Hnan.
      pose proof (div_finite_not_nan (JS.of_Z (WebApp.nAgree st)) false m e
                    (of_Z_not_nan _)) as Hq.
      pose proof (mul_by_finite_not_nan _ false 7036874417766400 (-46) Hq)
        as Hp.
      change (S754_finite false 7036874417766400 (-46))
        with (JS.of_Z 100) in Hp.
      rewrite Hnan in Hp. discriminate Hp.
    + intros ->.
      assert (E : WebApp.nAgree st = 0) by (clearbody st; lia).
      rewrite E. reflexivity.
  - intros Hwf avg.
    destruct (Z.ltb_spec 0 (WebApp.nDiff st)) as [Hpos | _]; [| discriminate].
    intros H. injection H as <-.
    destruct (loops_related_fold refFn nativeFn
                (WebApp.linspace xmin xmax n) []
                WebApp.analysis_init Compare.sweep_init Hwf) as [_ Htot _ _].
    { split; simpl; try reflexivity; lia. }
    destruct (total_inv_fold refFn nativeFn (WebApp.linspace xmin xmax n)
                Compare.sweep_init ltac:(split; reflexivity)) as [Hnn _].
    change (WebApp.totalUlp st = Compare.totalDiff
              (fold_left (Compare.sweep_step refFn nativeFn)
                 (WebApp.linspace xmin xmax n) Compare.sweep_init)) in Htot.
    rewrite Htot.
    assert (Hd : 0 < WebApp.nDiff st < 2 ^ 53) by (clearbody st; lia).
    destruct (of_Z_small_finite (WebApp.nDiff st) Hd) as (m & e & Hm).
    rewrite Hm. now apply div_finite_not_nan.
Qed.

(** The Newton square root against the native one over three cells of
    [[1, 4]]. *)
Lemma web_percentage_and_average_witness :
  Z.of_nat 3 < 2 ^ 53
  /\ (WebApp.statAgree
        (WebApp.runAccuracyAnalysis WebApp.refSqrt JS.Math_sqrt
           (JS.of_Z 1) (JS.of_Z 4) 3) = JS.NaN
      <-> 3%nat = 0%nat).
Proof.
  assert (H : Z.of_nat 3 < 2 ^ 53) by reflexivity.
  split; [exact H |].
  apply (web_percentage_and_average WebApp.refSqrt JS.Math_sqrt
           (JS.of_Z 1) (JS.of_Z 4) 3 H).
Defined.

(** ** The rows of the edge case table *)

(** X18.  [populateEdgeCases] keeps one flag per input row, set by any
    column: the cells of a row are the results of the functions, in
    order; the row is flagged exactly when some function of the table
    returns NaN, an infinity or a zero at the input, so the flag of the
    row of a longer table is set whenever that of a shorter one is; and
    there is one such row per entry of [cases], in order.  The flag tells
    nothing of one column: the row of [one_at_zero] and [sqrt] at [0] is
    flagged although the first result, [1], does not pass the test. *)
Theorem edge_row_flag (fns : list (number -> number)) (input : number) :
  fst (WebApp.edge_row fns input) = map (fun fn => fn input) fns
  /\ (snd (WebApp.edge_row fns input) = true
      <-> exists fn, In fn fns
                     /\ (JS.is_nan (fn input) || JS.is_inf (fn input)
                         || JS.is_zero (fn input)) = true)
  /\ (forall more : list (number -> number),
        snd (WebApp.edge_row fns input) = true ->
        snd (WebApp.edge_row (fns ++ more) input) = true)
  /\ (forall cases : list number,
        WebApp.populateEdgeCases cases fns
        = map (fun c =>
                 (map (fun fn => fn c) fns,
                  existsb (fun fn => JS.is_nan (fn c) || JS.is_inf (fn c)
                                     || JS.is_zero (fn c)) fns)) cases)
  /\ (WebApp.edge_row [one_at_zero; JS.Math_sqrt] JS.pos_zero
      = ([JS.of_Z 1; JS.pos_zero], true)
      /\ WebApp.special_result (one_at_zero JS.pos_zero) = false).
Proof.
  split; [now rewrite edge_row_cells_flag |].
  split; [rewrite edge_row_cells_flag, existsb_special; cbn [snd];
          apply existsb_exists |].
  split.
  - intros more. rewrite !edge_row_cells_flag. cbn [snd].
    rewrite existsb_app. intros ->. reflexivity.
  - split; [| split; reflexivity].
    intros cases. unfold WebApp.populateEdgeCases. apply map_ext.
    intros c. now rewrite edge_row_cells_flag, existsb_special.
Qed.
